(** * Publishing Node.js modules with CodePipeline: the commit filter and
      the pipeline construct

    This development embeds the two pieces of decision logic of the
    repository:

    - [CommitFilterFn.handler], the Lambda function of [commitFilterFn.ts]
      (lines 36 to 81 of [src/.releaserc.js]) that receives a CodeCommit
      reference event, fetches the commit and starts the pipeline unless
      the commit message carries the marker [[skip ci]];
    - [PkgPipeline.PkgPipeline], the constructor of [lib/pkg-pipeline.ts],
      with its validation of the CodeArtifact coordinates and the defaulting
      of the three command objects (which it mutates in place).

    Strings are Rocq strings (sequences of 8-bit characters); the marker and
    every literal of the source are ASCII. *)

From stdpp Require Import gmap strings list pretty.

Set Warnings "-register-all".
Local Open Scope string_scope.

(** * JavaScript values used by the handler *)

Module JS.

(** A value produced by [JSON.parse]: what the Lambda runtime hands to a
    handler. The TypeScript annotation of the parameter is erased at run
    time, so the handler is modelled on every such value. Numbers are
    restricted to integers; the members of an object keep their order (it
    is the order [JSON.stringify] prints them in) and have distinct keys. *)
Inductive JSON : Type :=
  | JNull
  | JBool (b : bool)
  | JNumber (n : Z)
  | JString (s : string)
  | JArray (items : list JSON)
  | JObject (members : list (string * JSON)).

(** First member with key [k] of an association list. *)
Fixpoint assoc {A} (k : string) (members : list (string * A)) : option A :=
  match members with
  | [] => None
  | (k', v) :: rest => if String.eqb k k' then Some v else assoc k rest
  end.

(** [v.k] for a value [v] that is neither [null] nor [undefined] and a name
    [k] that is neither an array index nor a built-in property ([length],
    methods): the own member of an object, [undefined] ([None]) on every
    other value. The handler reads [detail], [repositoryName] and
    [commitId] only. *)
Definition member (k : string) (v : JSON) : option JSON :=
  match v with
  | JObject members => assoc k members
  | _ => None
  end.

(** ** [JSON.stringify] *)

Definition dquote : string := String (Ascii.ascii_of_N 34) "".
Definition hex_digit (n : N) : string :=
  String.substring (N.to_nat n) 1 "0123456789abcdef".

(** QuoteJSONString, one character at a time: the two-character escapes,
    [\u00xx] for the remaining control characters, the character itself
    otherwise. *)
Definition quote_char (c : Ascii.ascii) : string :=
  let n := Ascii.N_of_ascii c in
  if (n =? 8)%N then "\b"
  else if (n =? 9)%N then "\t"
  else if (n =? 10)%N then "\n"
  else if (n =? 12)%N then "\f"
  else if (n =? 13)%N then "\r"
  else if (n =? 34)%N then "\" +:+ dquote
  else if (n =? 92)%N then "\\"
  else if (n <? 32)%N then "\u00" +:+ hex_digit (n / 16) +:+ hex_digit (n mod 16)
  else String c "".

Fixpoint quote_chars (s : string) : string :=
  match s with
  | EmptyString => ""
  | String c s' => quote_char c +:+ quote_chars s'
  end.

Definition quote (s : string) : string := dquote +:+ quote_chars s +:+ dquote.

Fixpoint join (sep : string) (parts : list string) : string :=
  match parts with
  | [] => ""
  | [p] => p
  | p :: rest => p +:+ sep +:+ join sep rest
  end.

(** [JSON.stringify(v)] with no replacer and no indentation. *)
Fixpoint JSON_stringify (v : JSON) : string :=
  match v with
  | JNull => "null"
  | JBool true => "true"
  | JBool false => "false"
  | JNumber n => pretty n
  | JString s => quote s
  | JArray items => "[" +:+ join "," (map JSON_stringify items) +:+ "]"
  | JObject members =>
      "{" +:+ join "," (map (fun kv => quote (fst kv) +:+ ":" +:+ JSON_stringify (snd kv))
                            members) +:+ "}"
  end.

(** ** [String.prototype.includes] *)

(** [s.includes(t)]: [t] starts at some position of [s]. *)
Fixpoint includes (s t : string) : bool :=
  String.prefix t s ||
  match s with
  | EmptyString => false
  | String _ s' => includes s' t
  end.

(** ** Errors *)

(** What a [throw] or a rejected promise carries. [TypeError] is raised by
    the engine (reading a property of [null] or [undefined]); its message is
    engine specific and not modelled. [ServiceException] is the rejection
    of a client's [send]: the name and message the SDK reports. *)
Inductive Exn : Type :=
  | Error (message : string)
  | TypeError
  | ServiceException (name message : string).

(** A settled promise. *)
Inductive Settled (A : Type) : Type :=
  | Fulfilled (a : A)
  | Rejected (e : Exn).
Arguments Fulfilled {A} a.
Arguments Rejected {A} e.

(** [!v] for [v] of type [boolean | undefined]. *)
Definition lnot (v : option bool) : bool :=
  match v with
  | Some b => negb b
  | None => true
  end.

End JS.

(** * The commit filter function ([commitFilterFn.ts]) *)

Module CommitFilterFn.
Import JS.

(** ** Requests and responses of the two SDK clients *)

(** The object literal [{ repositoryName, commitId }] given to
    [GetCommitCommand]: each member holds what the destructuring of
    [event.detail] produced, [undefined] ([None]) included. *)
Record GetCommitCommandInput : Type := {
  repositoryName : option JSON;
  commitId : option JSON;
}.

(** The part of a CodeCommit [Commit] the handler reads. *)
Record Commit : Type := {
  message : option string;
}.

Record GetCommitCommandOutput : Type := {
  commit : option Commit;
}.

(** The object literal given to [StartPipelineExecutionCommand], as the map
    from its keys to their values. *)
Abbreviation StartPipelineExecutionCommandInput :=
  (gmap string string) (only parsing).

Record StartPipelineExecutionCommandOutput : Type := {
  pipelineExecutionId : option string;
}.

(** An argument of [console.log]: a string, or the response object that
    line 77 prints. *)
Inductive LogArg : Type :=
  | LogText (s : string)
  | LogValue (res : StartPipelineExecutionCommandOutput).

(** ** The handler as a tree of interactions

    An [async] function body: it returns, throws, writes a log line, or
    calls [send] on one of the two clients and continues with the settled
    promise. *)
Inductive Prog (A : Type) : Type :=
  | Ret (a : A)
  | Throw (e : Exn)
  | ConsoleLog (arg : LogArg) (k : Prog A)
  | CcSend (input : GetCommitCommandInput)
           (k : Settled GetCommitCommandOutput → Prog A)
  | CpSend (input : StartPipelineExecutionCommandInput)
           (k : Settled StartPipelineExecutionCommandOutput → Prog A).
Arguments Ret {A} a.
Arguments Throw {A} e.
Arguments ConsoleLog {A} arg k.
Arguments CcSend {A} input k.
Arguments CpSend {A} input k.

Fixpoint bind {A B} (p : Prog A) (f : A → Prog B) : Prog B :=
  match p with
  | Ret a => f a
  | Throw e => Throw e
  | ConsoleLog arg k => ConsoleLog arg (bind k f)
  | CcSend input k => CcSend input (λ r, bind (k r) f)
  | CpSend input k => CpSend input (λ r, bind (k r) f)
  end.

#[export] Instance Prog_ret : MRet Prog := @Ret.
#[export] Instance Prog_bind : MBind Prog := λ A B f p, bind p f.

Definition console_log (arg : LogArg) : Prog unit := ConsoleLog arg (Ret tt).
Definition ccClient_send (input : GetCommitCommandInput)
  : Prog (Settled GetCommitCommandOutput) := CcSend input Ret.
Definition cpClient_send (input : StartPipelineExecutionCommandInput)
  : Prog (Settled StartPipelineExecutionCommandOutput) := CpSend input Ret.

(** [await p]: the value of a fulfilled promise; a rejection is thrown at
    the [await]. *)
Definition await {A} (p : Prog (Settled A)) : Prog A :=
  r ← p;
  match r with
  | Fulfilled a => Ret a
  | Rejected e => Throw e
  end.

(** [const { repositoryName, commitId } = event.detail]. Reading [detail]
    of [null] throws; so does destructuring [undefined] or [null]. *)
Definition destructure_detail (event : JSON) : Prog GetCommitCommandInput :=
  match event with
  | JNull => Throw TypeError
  | _ =>
      match member "detail" event with
      | None | Some JNull => Throw TypeError
      | Some detail =>
          Ret {| repositoryName := member "repositoryName" detail;
                 commitId := member "commitId" detail |}
      end
  end.

(** [commit?.message?.includes("[skip ci]")]: [undefined] as soon as the
    commit or its message is missing ([undefined] or [null]). *)
Definition includes_skip_ci (commit : option Commit) : option bool :=
  c ← commit;
  m ← message c;
  Some (includes m "[skip ci]").

(** [handler(event)], with [env] the process environment. *)
Definition handler (env : gmap string string) (event : JSON) : Prog unit :=
  console_log (LogText (JSON_stringify event));;
  match env !! "PIPELINE_NAME" with
  | None | Some "" => Throw (Error "process.env.PIPELINE_NAME is undefined")
  | Some pipelineName =>
      input ← destructure_detail event;
      out ← await (ccClient_send input);
      if lnot (includes_skip_ci (commit out)) then
        console_log (LogText "triggering pipeline");;
        res ← await (cpClient_send {[ "name" := pipelineName ]});
        console_log (LogValue res)
      else
        console_log
          (LogText "not triggering pipeline due to [skip ci] in commit message")
  end.

(** ** Running the handler against the two services *)

(** What an invocation does, in order: the lines it logs and the requests
    it sends, each with the settled response. *)
Inductive Event : Type :=
  | Logged (arg : LogArg)
  | GetCommit (input : GetCommitCommandInput)
              (response : Settled GetCommitCommandOutput)
  | StartPipelineExecution (input : StartPipelineExecutionCommandInput)
                           (response : Settled StartPipelineExecutionCommandOutput).

(** CodeCommit and CodePipeline as the handler sees them: each answers a
    request, and may change; [W] is everything outside the handler. The
    two clients are created once, when the module is loaded, for the region
    named by [REGION] or [AWS_REGION]: which endpoint answers is part of
    the world. *)
Record Services (W : Type) : Type := {
  codecommit : W → GetCommitCommandInput → W * Settled GetCommitCommandOutput;
  codepipeline : W → StartPipelineExecutionCommandInput
                 → W * Settled StartPipelineExecutionCommandOutput;
}.
Arguments codecommit {W} _ _ _.
Arguments codepipeline {W} _ _ _.

(** The result of an invocation: what it did, how its promise settled, and
    the world it leaves. *)
Record Invocation (W A : Type) : Type := {
  trace : list Event;
  outcome : Settled A;
  world : W;
}.
Arguments trace {W A} _.
Arguments outcome {W A} _.
Arguments world {W A} _.

Definition emit {W A} (ev : Event) (r : Invocation W A) : Invocation W A :=
  {| trace := ev :: trace r; outcome := outcome r; world := world r |}.

Fixpoint run {W A} (S : Services W) (p : Prog A) (w : W) : Invocation W A :=
  match p with
  | Ret a => {| trace := []; outcome := Fulfilled a; world := w |}
  | Throw e => {| trace := []; outcome := Rejected e; world := w |}
  | ConsoleLog arg k => emit (Logged arg) (run S k w)
  | CcSend input k =>
      let '(w', response) := codecommit S w input in
      emit (GetCommit input response) (run S (k response) w')
  | CpSend input k =>
      let '(w', response) := codepipeline S w input in
      emit (StartPipelineExecution input response) (run S (k response) w')
  end.

(** One invocation of the Lambda function. *)
Definition invoke {W} (S : Services W) (env : gmap string string)
    (event : JSON) (w : W) : Invocation W unit :=
  run S (handler env event) w.
Arguments invoke : simpl never.

(** The requests of a trace, per service. *)
Definition start_requests (tr : list Event)
  : list StartPipelineExecutionCommandInput :=
  omap (λ ev, match ev with
              | StartPipelineExecution input _ => Some input
              | _ => None
              end) tr.

Definition get_commit_requests (tr : list Event) : list GetCommitCommandInput :=
  omap (λ ev, match ev with
              | GetCommit input _ => Some input
              | _ => None
              end) tr.

Definition is_network_call (ev : Event) : bool :=
  match ev with
  | Logged _ => false
  | _ => true
  end.

Definition network_calls (tr : list Event) : list Event :=
  filter is_network_call tr.

(** ** The outcomes of an invocation

    [PIPELINE_NAME] is usable when it is set and not the empty string. *)
Definition configured (env : gmap string string) (pipelineName : string) : Prop :=
  env !! "PIPELINE_NAME" = Some pipelineName ∧ pipelineName ≠ "".

(** The six ways an invocation can go, each with the exact trace it
    leaves. *)
Inductive Shape {W} (S : Services W) (env : gmap string string)
    (event : JSON) (w : W) : Invocation W unit → Prop :=
  | ConfigurationError :
      env !! "PIPELINE_NAME" = None ∨ env !! "PIPELINE_NAME" = Some "" →
      Shape S env event w
        {| trace := [Logged (LogText (JSON_stringify event))];
           outcome := Rejected (Error "process.env.PIPELINE_NAME is undefined");
           world := w |}
  | MalformedEvent pipelineName :
      configured env pipelineName →
      destructure_detail event = Throw TypeError →
      Shape S env event w
        {| trace := [Logged (LogText (JSON_stringify event))];
           outcome := Rejected TypeError;
           world := w |}
  | LookupFailed pipelineName input w' e :
      configured env pipelineName →
      destructure_detail event = Ret input →
      codecommit S w input = (w', Rejected e) →
      Shape S env event w
        {| trace := [Logged (LogText (JSON_stringify event));
                     GetCommit input (Rejected e)];
           outcome := Rejected e;
           world := w' |}
  | SkippedByMarker pipelineName input w' out :
      configured env pipelineName →
      destructure_detail event = Ret input →
      codecommit S w input = (w', Fulfilled out) →
      lnot (includes_skip_ci (commit out)) = false →
      Shape S env event w
        {| trace := [Logged (LogText (JSON_stringify event));
                     GetCommit input (Fulfilled out);
                     Logged (LogText
                       "not triggering pipeline due to [skip ci] in commit message")];
           outcome := Fulfilled tt;
           world := w' |}
  | Started pipelineName input w' out w'' res :
      configured env pipelineName →
      destructure_detail event = Ret input →
      codecommit S w input = (w', Fulfilled out) →
      lnot (includes_skip_ci (commit out)) = true →
      codepipeline S w' {[ "name" := pipelineName ]} = (w'', Fulfilled res) →
      Shape S env event w
        {| trace := [Logged (LogText (JSON_stringify event));
                     GetCommit input (Fulfilled out);
                     Logged (LogText "triggering pipeline");
                     StartPipelineExecution {[ "name" := pipelineName ]}
                                            (Fulfilled res);
                     Logged (LogValue res)];
           outcome := Fulfilled tt;
           world := w'' |}
  | StartFailed pipelineName input w' out w'' e :
      configured env pipelineName →
      destructure_detail event = Ret input →
      codecommit S w input = (w', Fulfilled out) →
      lnot (includes_skip_ci (commit out)) = true →
      codepipeline S w' {[ "name" := pipelineName ]} = (w'', Rejected e) →
      Shape S env event w
        {| trace := [Logged (LogText (JSON_stringify event));
                     GetCommit input (Fulfilled out);
                     Logged (LogText "triggering pipeline");
                     StartPipelineExecution {[ "name" := pipelineName ]}
                                            (Rejected e)];
           outcome := Rejected e;
           world := w'' |}.

(** ** Vocabulary of the specification *)

(** [t] occurs in [s]: at any position, with anything around it. *)
Definition contains (s t : string) : Prop :=
  ∃ pre post, s = pre +:+ t +:+ post.

(** The commit metadata carries a message that contains the marker. *)
Definition has_marker (out : GetCommitCommandOutput) : Prop :=
  ∃ c m, commit out = Some c ∧ message c = Some m ∧ contains m "[skip ci]".

(** ASCII lower-casing, to speak of the case variants of the marker. *)
Definition lower_char (c : Ascii.ascii) : Ascii.ascii :=
  let n := Ascii.N_of_ascii c in
  if (65 <=? n)%N && (n <=? 90)%N then Ascii.ascii_of_N (n + 32) else c.

Fixpoint lower (s : string) : string :=
  match s with
  | EmptyString => ""
  | String c s' => String (lower_char c) (lower s')
  end.

(** The invocation fetched [out] as the commit metadata. *)
Definition fetched {W A} (r : Invocation W A) (out : GetCommitCommandOutput) : Prop :=
  ∃ input, GetCommit input (Fulfilled out) ∈ trace r.

(** The metadata lookup of the invocation failed with [e]. *)
Definition lookup_failed {W A} (r : Invocation W A) (e : Exn) : Prop :=
  ∃ input, GetCommit input (Rejected e) ∈ trace r.

(** ** Sample inputs *)

(** A repository in which commit [c1] of [r1] has message [m], and an
    execution engine that numbers the executions it starts: the world is
    the number of executions started so far. *)
Definition repository_with (m : option string) : Services nat := {|
  codecommit w _ := (w, Fulfilled {| commit := Some {| message := m |} |});
  codepipeline w _ := (S w, Fulfilled {| pipelineExecutionId := Some (pretty w) |});
|}.

(** A CodeCommit that rejects every lookup. *)
Definition codecommit_down : Services nat := {|
  codecommit w _ :=
    (w, Rejected (ServiceException "CommitDoesNotExistException" "no such commit"));
  codepipeline w _ := (S w, Fulfilled {| pipelineExecutionId := Some (pretty w) |});
|}.

Definition sample_env : gmap string string :=
  {[ "PIPELINE_NAME" := "nodejs-pkg-pipeline" ]}.

(** A [referenceCreated] event for commit [c1] of repository [r1] on branch
    [referenceName]. *)
Definition reference_created (referenceName : string) : JSON :=
  JObject [
    ("version", JString "0");
    ("detail-type", JString "CodeCommit Repository State Change");
    ("source", JString "aws.codecommit");
    ("detail", JObject [
       ("event", JString "referenceCreated");
       ("repositoryName", JString "r1");
       ("referenceType", JString "branch");
       ("referenceName", JString referenceName);
       ("commitId", JString "c1")])
  ].

(** The start request of the invocation failed with [e]. *)
Definition start_failed {W A} (r : Invocation W A) (e : Exn) : Prop :=
  ∃ input, StartPipelineExecution input (Rejected e) ∈ trace r.

(** A CodePipeline that rejects every start request, behind a repository
    whose commit has message [m]. *)
Definition codepipeline_down (m : option string) : Services nat := {|
  codecommit w _ := (w, Fulfilled {| commit := Some {| message := m |} |});
  codepipeline w _ :=
    (w, Rejected (ServiceException "PipelineNotFoundException" "no such pipeline"));
|}.

End CommitFilterFn.

(** * The pipeline construct ([lib/pkg-pipeline.ts]) *)

Module PkgPipeline.
Import JS.

(** ** Command objects and the store they live in

    The three command objects of the props are JavaScript objects with the
    optional members [install], [pre_build], [build] and [post_build]: maps
    from member names to arrays of commands. The constructor receives
    references to them and assigns to their members in place. A reference
    is a location of the store; two props may hold the same location. The
    arrays themselves are never mutated and are modelled as values. *)
Abbreviation Commands := (gmap string (list string)) (only parsing).
Abbreviation Store := (gmap positive (gmap string (list string))) (only parsing).

(** [PkgPipelineProps]. The three CodeArtifact members are declared
    [string]; a JavaScript caller can still leave them out, which the
    constructor checks for, so they are optional here. [buildImage] and
    [computeType] are the identifiers of the CDK enumeration members. *)
Record PkgPipelineProps : Type := {
  buildImage : option string;
  codeArtifactDomain : option string;
  codeArtifactRepo : option string;
  codeArtifactNamespace : option string;
  computeType : option string;
  lintCommands : option positive;
  testCommands : option positive;
  releaseCommands : option positive;
  globalInstallCommands : option (list string);
  globalPreBuildCommands : option (list string);
  name : string;
  repoDescription : option string;
  releaseBranch : option string;
}.

(** ** What the constructor builds *)

Record PolicyStatement : Type := {
  actions : list string;
  resources : list string;
  conditions : list (string * string * string);
}.

(** The object given to [BuildSpec.fromObject]: the commands of a phase are
    whatever the command object holds for it when the project is created. *)
Record BuildSpec : Type := {
  version : string;
  env : list (string * string);
  phases : list (string * option (list string));
}.

(** An action of a stage: the source action on a branch of the repository
    (never triggered by CodeCommit itself: the commit filter starts the
    pipeline), or a CodeBuild action on a project, of type [TEST] or of the
    default type [BUILD]. *)
Inductive Action : Type :=
  | CodeCommitSourceAction (actionName branch : string)
  | CodeBuildAction (actionName project type : string).

(** The operations on the construct tree, in the order the constructor
    performs them. Attributes that CDK resolves at synthesis (ARNs, the
    region, generated names) are written as tokens. *)
Inductive Construct : Type :=
  | Node (id : string)
  | Repository (id repositoryName : string) (description : option string)
  | NodejsFunction (id entry : string) (environment : list (string * string))
                   (initialPolicy : list PolicyStatement)
  | OnCommit (id : string) (branches : list string) (target : string)
  | Pipeline (id pipelineName : string)
  | AddEnvironment (fn key value : string)
  | AddToRolePolicy (grantee : string) (statement : PolicyStatement)
  | PipelineProject (id : string) (buildSpec : BuildSpec)
                    (buildImage computeType : string)
  | AddStage (stageName : string) (actions : list Action)
  | CfnOutput (id value : string).

(** A pipeline resource: everything but the node of the construct itself,
    which [super(scope, id)] registers. *)
Definition is_resource (c : Construct) : bool :=
  match c with
  | Node _ => false
  | _ => true
  end.

(** ** The constructor's effects: the store, the tree, exceptions *)

Record State : Type := {
  objects : Store;
  tree : list Construct;
}.

Definition M (A : Type) : Type := State → State * (Exn + A).

#[export] Instance M_ret : MRet M := λ A a st, (st, inr a).
#[export] Instance M_bind : MBind M := λ A B f m st,
  match m st with
  | (st', inr a) => f a st'
  | (st', inl e) => (st', inl e)
  end.

Definition throw {A} (e : Exn) : M A := λ st, (st, inl e).

(** [new C(this, ...)] and the methods that add to the tree. *)
Definition create (c : Construct) : M unit := λ st,
  ({| objects := objects st; tree := tree st ++ [c] |}, inr tt).

(** An object literal: a new object at a location not in use. *)
Definition alloc (c : Commands) : M positive := λ st,
  let l := fresh (dom (objects st)) in
  ({| objects := <[l := c]> (objects st); tree := tree st |}, inr l).

(** [cmd.k] in a store, [undefined] when the member is. *)
Definition member_of (h : Store) (cmd : positive) (k : string)
  : option (list string) :=
  h !! cmd ≫= (.!! k).

Definition read (cmd : positive) (k : string) : M (option (list string)) :=
  λ st, (st, inr (member_of (objects st) cmd k)).

(** [cmd.k = v]. *)
Definition assign (cmd : positive) (k : string) (v : list string) : M unit :=
  λ st, ({| objects := alter (<[k := v]>) cmd (objects st); tree := tree st |},
         inr tt).

(** [if (!cmd.k) cmd.k = v]. An array is truthy even when empty, so the
    test succeeds exactly when the member is [undefined]. *)
Definition assign_if_missing (cmd : positive) (k : string) (v : list string)
  : M unit :=
  cur ← read cmd k;
  match cur with
  | None => assign cmd k v
  | Some _ => mret tt
  end.

(** [for (const x of xs) body]. *)
Fixpoint for_of {A} (xs : list A) (body : A → M unit) : M unit :=
  match xs with
  | [] => mret tt
  | x :: rest => body x;; for_of rest body
  end.

(** ** Pieces of the constructor *)

(** [!s] for [s] of type [string | undefined]. *)
Definition falsy (s : option string) : bool :=
  match s with
  | None | Some "" => true
  | Some _ => false
  end.

(** [${s}] in a template literal. *)
Definition interpolate (s : option string) : string := default "undefined" s.

Definition STANDARD_5_0 : string := "aws/codebuild/standard:5.0".
Definition MEDIUM : string := "BUILD_GENERAL1_MEDIUM".

Definition defaultBuildCommands : list string := ["npm run build"].
Definition defaultLintCommands : list string := ["npm run lint"].
Definition defaultReleaseCommands : list string := ["npx semantic-release"].
Definition defaultTestCommands : list string := ["npm run test"].

(** The default of [globalInstallCommands] (lines 131 to 134). *)
Definition default_install_commands (props : PkgPipelineProps) : list string :=
  [ "npm install -g npm@7";
    "aws codeartifact login --tool npm --domain "
      +:+ interpolate (codeArtifactDomain props)
      +:+ " --repository " +:+ interpolate (codeArtifactRepo props)
      +:+ " --namespace " +:+ interpolate (codeArtifactNamespace props) ].

Definition global_install (props : PkgPipelineProps) : list string :=
  default (default_install_commands props) (globalInstallCommands props).

Definition global_pre_build (props : PkgPipelineProps) : list string :=
  default ["npm install"] (globalPreBuildCommands props).

(** A destructuring default [x = { ... }]: the object of the props when
    there is one, a new object otherwise. *)
Definition or_new (given : option positive) (literal : Commands) : M positive :=
  match given with
  | Some l => mret l
  | None => alloc literal
  end.

(** Lines 149 to 166, [const { lintCommands = {...}, releaseCommands =
    {...}, testCommands = {...} } = props]: the three references, in the
    order of the pattern. *)
Definition destructure_commands (props : PkgPipelineProps)
  : M (positive * positive * positive) :=
  let globalInstallCommands := global_install props in
  let globalPreBuildCommands := global_pre_build props in
  lintCommands ← or_new (lintCommands props)
    {[ "install" := globalInstallCommands;
       "pre_build" := globalPreBuildCommands;
       "build" := defaultLintCommands ]};
  releaseCommands ← or_new (releaseCommands props)
    {[ "install" := globalInstallCommands;
       "pre_build" := globalPreBuildCommands;
       "build" := defaultBuildCommands;
       "post_build" := defaultReleaseCommands ]};
  testCommands ← or_new (testCommands props)
    {[ "install" := globalInstallCommands;
       "pre_build" := globalPreBuildCommands;
       "build" := defaultTestCommands ]};
  mret (lintCommands, releaseCommands, testCommands).

(** Lines 149 to 176: the three command objects after defaulting, as
    [(lintCommands, releaseCommands, testCommands)]. *)
Definition default_commands (props : PkgPipelineProps)
  : M (positive * positive * positive) :=
  let globalInstallCommands := global_install props in
  let globalPreBuildCommands := global_pre_build props in
  '(lintCommands, releaseCommands, testCommands) ← destructure_commands props;
  let commands := [lintCommands; releaseCommands; testCommands] in
  for_of commands (λ cmd,
    assign_if_missing cmd "install" globalInstallCommands;;
    assign_if_missing cmd "pre_build" globalPreBuildCommands);;
  assign_if_missing lintCommands "build" defaultLintCommands;;
  assign_if_missing releaseCommands "build" defaultBuildCommands;;
  assign_if_missing releaseCommands "post_build" defaultReleaseCommands;;
  assign_if_missing testCommands "build" defaultTestCommands;;
  mret (lintCommands, releaseCommands, testCommands).

(** ** The store after a conditional assignment

    [fill cmd k v h] is the store [assign_if_missing cmd k v] leaves, and
    [fills] a sequence of them, first to last; [first_fill] is the value of
    the first assignment of a sequence that targets member [k] of [cmd]. *)
Definition fill (cmd : positive) (k : string) (v : list string) (h : Store)
  : Store :=
  match member_of h cmd k with
  | None => alter (<[k := v]>) cmd h
  | Some _ => h
  end.

Fixpoint fills (ops : list (positive * string * list string)) (h : Store)
  : Store :=
  match ops with
  | [] => h
  | (cmd, k, v) :: rest => fills rest (fill cmd k v h)
  end.

Fixpoint first_fill (cmd : positive) (k : string)
    (ops : list (positive * string * list string)) : option (list string) :=
  match ops with
  | [] => None
  | (cmd', k', v) :: rest =>
      if decide (cmd' = cmd ∧ k' = k) then Some v else first_fill cmd k rest
  end.

(** The reference and the store [or_new] leaves. *)
Definition or_new_store (given : option positive) (literal : Commands)
    (h : Store) : positive * Store :=
  match given with
  | Some l => (l, h)
  | None => (fresh (dom h), <[fresh (dom h) := literal]> h)
  end.

(** The three references and the store [destructure_commands] leaves. *)
Definition destructured (props : PkgPipelineProps) (h : Store)
  : positive * positive * positive * Store :=
  let '(l, h1) := or_new_store (lintCommands props)
    {[ "install" := global_install props;
       "pre_build" := global_pre_build props;
       "build" := defaultLintCommands ]} h in
  let '(r, h2) := or_new_store (releaseCommands props)
    {[ "install" := global_install props;
       "pre_build" := global_pre_build props;
       "build" := defaultBuildCommands;
       "post_build" := defaultReleaseCommands ]} h1 in
  let '(t, h3) := or_new_store (testCommands props)
    {[ "install" := global_install props;
       "pre_build" := global_pre_build props;
       "build" := defaultTestCommands ]} h2 in
  (l, r, t, h3).

(** The conditional assignments of lines 168 to 176, in order, on the
    references [l], [r] and [t] of the lint, release and test commands. *)
Definition assignments (props : PkgPipelineProps) (l r t : positive)
  : list (positive * string * list string) :=
  [ (l, "install", global_install props);
    (l, "pre_build", global_pre_build props);
    (r, "install", global_install props);
    (r, "pre_build", global_pre_build props);
    (t, "install", global_install props);
    (t, "pre_build", global_pre_build props);
    (l, "build", defaultLintCommands);
    (r, "build", defaultBuildCommands);
    (r, "post_build", defaultReleaseCommands);
    (t, "build", defaultTestCommands) ].

(** ** Resources *)

(** What the constructor takes from its host: [__dirname] and
    [fs.existsSync]. *)
Record Host : Type := {
  dirname : string;
  existsSync : string → bool;
}.

(** [path.resolve(dir, file)] for an absolute [dir]. *)
Definition resolve (dir file : string) : string := dir +:+ "/" +:+ file.

(** [Arn.format({ resource, service }, stack)], with the partition, region
    and account of the stack as tokens. *)
Definition Arn_format (service resource : string) : string :=
  "arn:${AWS::Partition}:" +:+ service
    +:+ ":${AWS::Region}:${AWS::AccountId}:" +:+ resource.

Definition repositoryArn : string := "${Repository.Arn}".
Definition pipelineName : string := "${Pipeline.Ref}".
Definition pipelineArn : string := "${Pipeline.Arn}".
Definition region : string := "${AWS::Region}".

(** [addCodeArtifactGetAuthPolicies] (lines 381 to 428). *)
Definition addCodeArtifactGetAuthPolicies (project : string)
    (codeArtifactDomain codeArtifactRepo : string) : M unit :=
  create (AddToRolePolicy project
    {| actions := ["sts:GetServiceBearerToken"];
       resources := ["*"];
       conditions :=
         [("StringEquals", "sts:AWSServiceName", "codeartifact.amazonaws.com")] |});;
  create (AddToRolePolicy project
    {| actions := ["codeartifact:GetAuthorizationToken"];
       resources := [Arn_format "codeartifact" ("domain/" +:+ codeArtifactDomain)];
       conditions := [] |});;
  create (AddToRolePolicy project
    {| actions := ["codeartifact:GetRepositoryEndpoint";
                   "codeartifact:ReadFromRepository"];
       resources := [Arn_format "codeartifact"
                       ("repository/" +:+ codeArtifactDomain +:+ "/"
                          +:+ codeArtifactRepo)];
       conditions := [] |}).

(** A CodeBuild project whose buildspec takes the phases [ks] from the
    command object [cmd] (lines 235 to 254, 271 to 290, 307 to 332). *)
Definition pipeline_project (id : string) (spec_env : list (string * string))
    (cmd : positive) (ks : list string) (buildImage computeType : string)
  : M unit := λ st,
  create (PipelineProject id
    {| version := "0.2";
       env := spec_env;
       phases := (λ k, (k, member_of (objects st) cmd k)) <$> ks |}
    buildImage computeType) st.

(** Lines 178 to 378: the resources, once the props are validated and the
    command objects defaulted. *)
Definition create_resources (host : Host) (props : PkgPipelineProps)
    (lintCommands releaseCommands testCommands : positive) : M unit :=
  let buildImage := default STANDARD_5_0 (buildImage props) in
  let computeType := default MEDIUM (computeType props) in
  let releaseBranch := default "main" (releaseBranch props) in
  let codeArtifactDomain := interpolate (codeArtifactDomain props) in
  let codeArtifactRepo := interpolate (codeArtifactRepo props) in
  create (Repository "Repository" (name props) (repoDescription props));;
  let tsPath := resolve (dirname host) "commitFilterFn.ts" in
  let entry := if existsSync host tsPath then tsPath
               else resolve (dirname host) "commitFilterFn.js" in
  create (NodejsFunction "CommitFilterFn" entry
    [("NODE_OPTIONS", "--enable-source-maps"); ("REGION", region)]
    [{| actions := ["codecommit:GetCommit"];
        resources := [repositoryArn];
        conditions := [] |}]);;
  create (OnCommit "CommitToMain" ["main"] "CommitFilterFn");;
  create (Pipeline "Pipeline" (name props));;
  create (AddEnvironment "CommitFilterFn" "PIPELINE_NAME" pipelineName);;
  create (AddToRolePolicy "CommitFilterFn"
    {| actions := ["codepipeline:StartPipelineExecution"];
       resources := [pipelineArn];
       conditions := [] |});;
  create (AddStage "Source" [CodeCommitSourceAction "CodeCommit" releaseBranch]);;
  pipeline_project "LintPipelineProject" [] lintCommands
    ["install"; "pre_build"; "build"] buildImage computeType;;
  addCodeArtifactGetAuthPolicies "LintPipelineProject"
    codeArtifactDomain codeArtifactRepo;;
  create (AddStage "Lint" [CodeBuildAction "Lint" "LintPipelineProject" "TEST"]);;
  pipeline_project "TestPipelineProject" [] testCommands
    ["install"; "pre_build"; "build"] buildImage computeType;;
  addCodeArtifactGetAuthPolicies "TestPipelineProject"
    codeArtifactDomain codeArtifactRepo;;
  create (AddStage "Test" [CodeBuildAction "Test" "TestPipelineProject" "TEST"]);;
  pipeline_project "PublishPipelineProject" [("git-credential-helper", "yes")]
    releaseCommands ["install"; "pre_build"; "build"; "post_build"]
    buildImage computeType;;
  addCodeArtifactGetAuthPolicies "PublishPipelineProject"
    codeArtifactDomain codeArtifactRepo;;
  create (AddToRolePolicy "PublishPipelineProject"
    {| actions := ["codeartifact:PublishPackageVersion"];
       resources := [Arn_format "codeartifact"
                       ("package/" +:+ codeArtifactDomain +:+ "/"
                          +:+ codeArtifactRepo +:+ "/npm/*")];
       conditions := [] |});;
  create (AddToRolePolicy "PublishPipelineProject"
    {| actions := ["codecommit:GitPull"; "codecommit:GetReferences";
                   "codecommit:GitPush"; "codecommit:TagResource"];
       resources := [repositoryArn];
       conditions := [] |});;
  create (AddStage "Publish"
    [CodeBuildAction "Publish" "PublishPipelineProject" "BUILD"]);;
  create (CfnOutput "PipelineNameOutput" pipelineName).

(** ** The constructor *)

(** [new PkgPipeline(scope, id, props)], run in the state of the
    surrounding program. *)
Definition PkgPipeline (host : Host) (id : string) (props : PkgPipelineProps)
  : M unit :=
  create (Node id);;
  if falsy (codeArtifactDomain props) || falsy (codeArtifactRepo props)
     || falsy (codeArtifactNamespace props)
  then throw (Error
    "codeArtifactDomain, codeArtifactRepo, and codeArtifactNamespace must be defined")
  else
    '(lintCommands, releaseCommands, testCommands) ← default_commands props;
    create_resources host props lintCommands releaseCommands testCommands.

(** The buildspec phases of the project [id] in a tree. *)
Fixpoint project_phases (id : string) (t : list Construct)
  : option (list (string * option (list string))) :=
  match t with
  | [] => None
  | PipelineProject id' spec _ _ :: rest =>
      if String.eqb id id' then Some (phases spec) else project_phases id rest
  | _ :: rest => project_phases id rest
  end.

(** ** Vocabulary of the specification *)

Definition absent_or_empty (s : option string) : Prop :=
  s = None ∨ s = Some "".

(** The member [k] of [cmd] is defined. *)
Definition defined (h : Store) (cmd : positive) (k : string) : Prop :=
  is_Some (member_of h cmd k).

(** The member [k] of [cmd] is what the caller put in [h0], or [fallback]
    when the caller left it out or gave no object at all. *)
Definition falls_back (h0 h : Store) (given : option positive) (cmd : positive)
    (k : string) (fallback : list string) : Prop :=
  member_of h cmd k =
    Some (default fallback (given ≫= λ l, member_of h0 l k)).

(** Every reference of the props points to an object of the store. *)
Definition valid_props (props : PkgPipelineProps) (h : Store) : Prop :=
  ∀ c, lintCommands props = Some c ∨ releaseCommands props = Some c
       ∨ testCommands props = Some c →
       is_Some (h !! c).


(** Where a reference [x] of the constructor comes from: the props, or a
    new object [literal] at a location that [h] did not use. *)
Definition provided (given : option positive) (literal : Commands)
    (h h3 : Store) (x : positive) : Prop :=
  match given with
  | Some c => x = c
  | None => h !! x = None ∧ h3 !! x = Some literal
  end.

(** ** Sample inputs *)

Definition sample_host : Host :=
  {| dirname := "/opt/lib"; existsSync := λ _, false |}.

(** The props of the repository's test ([PkgPipeline has resources]), with
    the command objects left to the caller. *)
Definition test_props (lint test release : option positive) : PkgPipelineProps :=
  {| buildImage := None;
     codeArtifactDomain := Some "test-domain";
     codeArtifactRepo := Some "test-repo";
     codeArtifactNamespace := Some "@test-namespace";
     computeType := None;
     lintCommands := lint;
     testCommands := test;
     releaseCommands := release;
     globalInstallCommands := None;
     globalPreBuildCommands := None;
     name := "test";
     repoDescription := None;
     releaseBranch := None |}.

Definition empty_state : State := {| objects := ∅; tree := [] |}.

(** One object [{ pre_build: ["npm ci"] }], at location 1. *)
Definition shared_object_state : State :=
  {| objects := {[ 1%positive := {[ "pre_build" := ["npm ci"] ]} ]};
     tree := [] |}.

(** ** Reading a construct tree *)






(** What [create_resources] adds to a tree, given the store it reads. *)
Definition created (host : Host) (props : PkgPipelineProps) (h : Store)
    (lintCommands releaseCommands testCommands : positive) : list Construct :=
  tree (create_resources host props lintCommands releaseCommands testCommands
          {| objects := h; tree := [] |}).1.

(** The three CodeArtifact coordinates are there and not empty. *)
Definition coordinates_given (props : PkgPipelineProps) : Prop :=
  ¬ absent_or_empty (codeArtifactDomain props) ∧
  ¬ absent_or_empty (codeArtifactRepo props) ∧
  ¬ absent_or_empty (codeArtifactNamespace props).





(** The test command object [{ pre_build: ["npm ci"] }] at location 1, as
    the only command object of the props. *)
Definition partial_test_props : PkgPipelineProps :=
  test_props None (Some 1%positive) None.

(** Three command objects, at locations 1 (lint), 2 (test) and 3 (release):
    [{}], [{ pre_build: ["npm ci"] }] and [{ build: ["npm run compile"] }]. *)
Definition three_objects_state : State :=
  {| objects := {[ 1%positive := ∅;
                   2%positive := {[ "pre_build" := ["npm ci"] ]};
                   3%positive := {[ "build" := ["npm run compile"] ]} ]};
     tree := [] |}.

(** Props for a second pipeline on the same three objects, with global
    install commands of its own. *)
Definition second_props : PkgPipelineProps :=
  {| buildImage := None;
     codeArtifactDomain := Some "other-domain";
     codeArtifactRepo := Some "other-repo";
     codeArtifactNamespace := Some "@other-namespace";
     computeType := None;
     lintCommands := Some 1%positive;
     testCommands := Some 2%positive;
     releaseCommands := Some 3%positive;
     globalInstallCommands := Some ["npm install -g npm@8"];
     globalPreBuildCommands := None;
     name := "other";
     repoDescription := None;
     releaseBranch := None |}.

End PkgPipeline.

(** * Properties of the commit filter *)

Module CommitFilterSpec.
Import JS CommitFilterFn.

(** ** [includes] is the substring test *)

Lemma append_nil_l (s : string) : "" +:+ s = s.
Proof. reflexivity. Qed.

Lemma append_cons (a : Ascii.ascii) (s t : string) :
  String a s +:+ t = String a (s +:+ t).
Proof. reflexivity. Qed.

Lemma prefix_append (t s : string) :
  String.prefix t s = true ↔ ∃ post, s = t +:+ post.
Proof.
  revert s. induction t as [|a t IH]; intros s; simpl.
  - destruct s; split; eauto.
  - destruct s as [|b s]; simpl.
    + split; [done | intros [post H]; discriminate].
    + setoid_rewrite append_cons.
      destruct (Ascii.ascii_dec a b) as [->|Hne].
      * rewrite IH. split; intros [post H]; exists post; congruence.
      * split; [done | intros [post H]; congruence].
Qed.

Lemma includes_contains (s t : string) :
  includes s t = true ↔ contains s t.
Proof.
  unfold contains. induction s as [|a s IH]; cbn [includes].
  - rewrite orb_false_r, prefix_append. split.
    + intros [post H]. by exists "", post.
    + intros [[|b pre] [post H]]; [by exists post|discriminate].
  - rewrite orb_true_iff, prefix_append, IH. split.
    + intros [[post H]|(pre & post & H)].
      * by exists "", post.
      * exists (String a pre), post. by rewrite append_cons, H.
    + intros [[|b pre] [post H]].
      * left. by exists post.
      * right. exists pre, post. rewrite append_cons in H. congruence.
Qed.

Lemma includes_not_contains (s t : string) :
  includes s t = false ↔ ¬ contains s t.
Proof. rewrite <- includes_contains. by destruct (includes s t). Qed.

(** ** Every invocation has one of the six shapes *)

Lemma destructure_detail_cases (event : JSON) :
  destructure_detail event = Throw TypeError ∨
  ∃ input, destructure_detail event = Ret input.
Proof.
  unfold destructure_detail.
  destruct event; auto; destruct (member "detail" _) as [[]|]; eauto.
Qed.

Lemma invoke_shape {W} (S : Services W) env event w :
  Shape S env event w (invoke S env event w).
Proof.
  unfold invoke, handler.
  destruct (env !! "PIPELINE_NAME") as [[|a name]|] eqn:Henv;
    [by constructor; auto| |by constructor; auto].
  assert (Hcfg : configured env (String a name)) by done.
  generalize dependent (String a name). intros pipelineName _ Hcfg.
  destruct (destructure_detail_cases event) as [Hd|[input Hd]]; rewrite Hd; simpl.
  { by econstructor. }
  destruct (codecommit S w input) as [w' [out|e]] eqn:Hcc; simpl;
    [|by econstructor].
  destruct (lnot (includes_skip_ci (commit out))) eqn:Hskip; simpl;
    [|by econstructor].
  destruct (codepipeline S w' _) as [w'' [res|e]] eqn:Hcp; simpl;
    by econstructor.
Qed.

Lemma length_append (s t : string) :
  String.length (s +:+ t) = String.length s + String.length t.
Proof. induction s as [|a s IH]; [done|]. rewrite append_cons. simpl. by rewrite IH. Qed.

Lemma length_lower (s : string) : String.length (lower s) = String.length s.
Proof. induction s as [|a s IH]; simpl; by rewrite ?IH. Qed.

Lemma length_0_empty (s : string) : String.length s = 0 → s = "".
Proof. by destruct s. Qed.

Lemma append_nil_r (s : string) : s +:+ "" = s.
Proof. induction s as [|a s IH]; [done|]. by rewrite append_cons, IH. Qed.

(** A string as long as [t] contains [t] only if it is [t]. *)
Lemma contains_same_length (s t : string) :
  String.length s = String.length t → contains s t → s = t.
Proof.
  intros Hlen (pre & post & ->). rewrite !length_append in Hlen.
  assert (pre = "") as -> by (apply length_0_empty; lia).
  assert (post = "") as -> by (apply length_0_empty; lia).
  by rewrite append_nil_l, append_nil_r.
Qed.

(** ** Reading a shape *)

Lemma skip_iff_marker (out : GetCommitCommandOutput) :
  lnot (includes_skip_ci (commit out)) = false ↔ has_marker out.
Proof.
  unfold has_marker. destruct out as [[[[m|]]|]]; simpl.
  - rewrite negb_false_iff, includes_contains. split.
    + intros H. by eexists _, m.
    + intros (c & m' & [= <-] & [= <-] & H). done.
  - split; [done | intros (c & m & [= <-] & [=] & _)].
  - split; [done | intros (c & m & [=] & _)].
Qed.

Lemma trigger_iff_no_marker (out : GetCommitCommandOutput) :
  lnot (includes_skip_ci (commit out)) = true ↔ ¬ has_marker out.
Proof.
  rewrite <- skip_iff_marker. by destruct (lnot _).
Qed.

(** Case analysis on the shape of [invoke S env event w], which replaces
    the invocation by its explicit record everywhere. *)
Ltac by_shape S env event w :=
  let H := fresh "Hshape" in
  let r := fresh "r" in
  let E := fresh "E" in
  pose proof (invoke_shape S env event w) as H;
  remember (invoke S env event w) as r eqn:E; clear E;
  destruct H; simpl in *.

(** The same, for whichever invocation the context mentions. *)
Ltac by_some_shape :=
  match goal with
  | |- context [invoke ?S ?env ?event ?w] => by_shape S env event w
  | _ : context [invoke ?S ?env ?event ?w] |- _ => by_shape S env event w
  end.

(** Turns the membership of a request in an explicit trace into the
    equalities it amounts to. *)
Ltac in_trace :=
  repeat match goal with
  | H : fetched ?r _ |- _ =>
      lazymatch r with
      | context [invoke] => fail
      | _ => destruct H as [? H]; simpl in H
      end
  | H : lookup_failed ?r _ |- _ =>
      lazymatch r with
      | context [invoke] => fail
      | _ => destruct H as [? H]; simpl in H
      end
  | H : _ ∈ _ :: _ |- _ => apply elem_of_cons in H as [H|H]
  | H : _ ∈ [] |- _ => by apply elem_of_nil in H
  | H : GetCommit _ _ = _ |- _ => try discriminate H; injection H as -> ->
  end.

(** An invocation that fetched metadata without the marker sent one start
    request, naming the pipeline of the environment. *)
Lemma start_requests_without_marker {W} (S : Services W) env event w out :
  fetched (invoke S env event w) out → ¬ has_marker out →
  ∃ pipelineName,
    env !! "PIPELINE_NAME" = Some pipelineName ∧
    start_requests (trace (invoke S env event w)) = [ {[ "name" := pipelineName ]} ].
Proof.
  intros Hf Hm. apply trigger_iff_no_marker in Hm.
  by_shape S env event w; in_trace; try congruence;
    match goal with H : configured _ ?n |- _ => exists n; destruct H end; done.
Qed.

(** ** The gate *)

(** C1. Whenever the commit metadata fetched by an invocation carries a
    message that contains [[skip ci]] anywhere, the invocation sends no
    StartPipelineExecution request and its promise is fulfilled. *)
Theorem skip_ci_marker_is_a_no_op {W} (S : Services W) env event w out :
  let r := invoke S env event w in
  fetched r out → has_marker out →
  start_requests (trace r) = [] ∧ outcome r = Fulfilled tt.
Proof.
  intros r Hf Hm. subst r. apply skip_iff_marker in Hm.
  by_shape S env event w; in_trace; first [done | congruence].
Qed.

(** C2. Whenever the fetched commit metadata carries no message that
    contains [[skip ci]] (no commit, no message and the empty message
    included), the invocation sends exactly one StartPipelineExecution
    request: the object whose only member is [name], equal to
    [PIPELINE_NAME]. *)
Theorem no_marker_starts_pipeline_once {W} (S : Services W) env event w out :
  let r := invoke S env event w in
  fetched r out → ¬ has_marker out →
  (∃ pipelineName,
      env !! "PIPELINE_NAME" = Some pipelineName ∧
      start_requests (trace r) = [ {[ "name" := pipelineName ]} ] ∧
      ∀ k, k ≠ "name" →
           ({[ "name" := pipelineName ]} : gmap string string) !! k = None)
  ∧ ¬ has_marker {| commit := None |}
  ∧ ¬ has_marker {| commit := Some {| message := None |} |}
  ∧ ¬ has_marker {| commit := Some {| message := Some "" |} |}.
Proof.
  intros r Hf Hm. subst r.
  split; [|by rewrite <- !trigger_iff_no_marker].
  destruct (start_requests_without_marker S env event w out Hf Hm)
    as (pipelineName & Henv & Hstart).
  exists pipelineName. repeat split; [done..|].
  intros k Hk. by apply lookup_singleton_ne.
Qed.

(** C3. With [PIPELINE_NAME] unset or empty the invocation is rejected with
    the error of line 67 and has made no network call: no GetCommit, no
    StartPipelineExecution, and the world is as it was. *)
Theorem missing_pipeline_name_fails_before_any_call
    {W} (S : Services W) env event w :
  env !! "PIPELINE_NAME" = None ∨ env !! "PIPELINE_NAME" = Some "" →
  let r := invoke S env event w in
  outcome r = Rejected (Error "process.env.PIPELINE_NAME is undefined") ∧
  network_calls (trace r) = [] ∧
  get_commit_requests (trace r) = [] ∧
  start_requests (trace r) = [] ∧
  world r = w.
Proof.
  intros Henv r. subst r.
  by_shape S env event w; try done;
    match goal with H : configured _ _ |- _ => destruct H end;
    destruct Henv; congruence.
Qed.

(** C4. When the GetCommit lookup of an invocation is rejected, the
    invocation sends no StartPipelineExecution request, its promise is
    rejected with that very error, and the lookup was sent once (no
    retry). *)
Theorem failed_lookup_propagates {W} (S : Services W) env event w e :
  let r := invoke S env event w in
  lookup_failed r e →
  start_requests (trace r) = [] ∧
  outcome r = Rejected e ∧
  List.length (get_commit_requests (trace r)) = 1.
Proof.
  intros r Hf. subst r. by_shape S env event w; in_trace; done.
Qed.

(** C6. No invocation, whatever the event, the environment and the
    behaviour of the two services, sends more than one
    StartPipelineExecution request. *)
Theorem at_most_one_start {W} (S : Services W) env event w :
  (List.length (start_requests (trace (invoke S env event w))) ≤ 1)%nat.
Proof.
  by_shape S env event w; lia.
Qed.

(** C5. The test for the marker is an exact, unanchored substring test.
    With [m] the fetched message: if [m] contains a case variant [v] of the
    marker but not the marker itself, the test is false and one start
    request is sent; if [m] has the marker between any [pre] and [post],
    the test is true and no start request is sent; and a case variant
    other than the marker does not contain the marker. *)
Theorem marker_match_is_exact_substring {W} (S : Services W) env event w c m :
  let r := invoke S env event w in
  fetched r {| commit := Some c |} → message c = Some m →
  (∀ v, lower v = "[skip ci]" → contains m v → ¬ contains m "[skip ci]" →
        includes_skip_ci (Some c) = Some false ∧
        List.length (start_requests (trace r)) = 1)
  ∧ (∀ pre post, m = pre +:+ "[skip ci]" +:+ post →
        includes_skip_ci (Some c) = Some true ∧
        start_requests (trace r) = [])
  ∧ (∀ v, lower v = "[skip ci]" → v ≠ "[skip ci]" → ¬ contains v "[skip ci]").
Proof.
  intros r Hf Hm. subst r.
  assert (Hskip : includes_skip_ci (Some c) = Some (includes m "[skip ci]"))
    by (destruct c; simpl in *; by subst).
  assert (Hnot : ∀ out, out = {| commit := Some c |} →
            lnot (includes_skip_ci (commit out)) = negb (includes m "[skip ci]"))
    by (intros out ->; simpl commit; by rewrite Hskip).
  specialize (Hnot _ eq_refl). revert Hf Hnot.
  generalize {| commit := Some c |}. intros out Hf Hnot.
  split; [|split].
  - intros v _ _ Hno. apply includes_not_contains in Hno.
    rewrite Hskip, Hno in *. split; [done|].
    by_shape S env event w; in_trace; first [done | congruence].
  - intros pre post ->.
    assert (Hyes : includes (pre +:+ "[skip ci]" +:+ post) "[skip ci]" = true)
      by (apply includes_contains; by exists pre, post).
    rewrite Hskip, Hyes in *. split; [done|].
    by_shape S env event w; in_trace; first [done | congruence].
  - intros v Hv Hne Hc. apply Hne, contains_same_length; [|done].
    by rewrite <- (length_lower v), Hv.
Qed.

(** C7, as amended. Two events whose [detail] objects agree on
    [repositoryName] and [commitId] lead, in the same environment and the
    same world, to the same requests with the same responses, the same log
    lines after the first, the same outcome and the same final world; the
    first log line is the whole of each event, serialised. *)
Theorem requests_depend_only_on_detail_fields
    {W} (S : Services W) env e1 e2 w d1 d2 :
  member "detail" e1 = Some (JObject d1) →
  member "detail" e2 = Some (JObject d2) →
  assoc "repositoryName" d1 = assoc "repositoryName" d2 →
  assoc "commitId" d1 = assoc "commitId" d2 →
  let r1 := invoke S env e1 w in
  let r2 := invoke S env e2 w in
  (∃ rest, trace r1 = Logged (LogText (JSON_stringify e1)) :: rest ∧
           trace r2 = Logged (LogText (JSON_stringify e2)) :: rest)
  ∧ network_calls (trace r1) = network_calls (trace r2)
  ∧ outcome r1 = outcome r2
  ∧ world r1 = world r2.
Proof.
  intros H1 H2 Hrepo Hcommit r1 r2.
  assert (Hd : destructure_detail e1 = destructure_detail e2).
  { unfold destructure_detail.
    destruct e1; try discriminate H1. destruct e2; try discriminate H2.
    rewrite H1, H2. simpl. by rewrite Hrepo, Hcommit. }
  subst r1 r2. unfold invoke, handler.
  destruct (env !! "PIPELINE_NAME") as [[|a name]|]; simpl;
    rewrite ?Hd; eauto 10.
Qed.

(** C8. Replaying an event whose commit message (as fetched by each of the
    two invocations) lacks the marker sends a second start request: one per
    invocation, two in all, both naming [PIPELINE_NAME]. *)
Theorem replay_starts_pipeline_again {W} (S : Services W) env event w out1 out2 :
  let r1 := invoke S env event w in
  let r2 := invoke S env event (world r1) in
  fetched r1 out1 → ¬ has_marker out1 →
  fetched r2 out2 → ¬ has_marker out2 →
  ∃ pipelineName,
    env !! "PIPELINE_NAME" = Some pipelineName ∧
    start_requests (trace r1) = [ {[ "name" := pipelineName ]} ] ∧
    start_requests (trace r2) = [ {[ "name" := pipelineName ]} ] ∧
    start_requests (trace r1 ++ trace r2) =
      [ {[ "name" := pipelineName ]}; {[ "name" := pipelineName ]} ].
Proof.
  intros r1 r2 Hf1 Hm1 Hf2 Hm2.
  destruct (start_requests_without_marker S env event w out1 Hf1 Hm1)
    as (pipelineName & Henv & Hstart1).
  destruct (start_requests_without_marker S env event (world r1) out2 Hf2 Hm2)
    as (pipelineName' & Henv' & Hstart2).
  assert (pipelineName' = pipelineName) as -> by congruence.
  exists pipelineName. repeat split; [done..|].
  unfold start_requests in *. rewrite omap_app.
  fold r1 in Hstart1. fold r2 in Hstart2. by rewrite Hstart1, Hstart2.
Qed.

(** *** Witnesses on the sample inputs *)

Lemma skip_ci_marker_is_a_no_op_witness :
  let r := invoke (repository_with (Some "chore(release): 1.2.0 [skip ci]"))
                  sample_env (reference_created "main") 0 in
  start_requests (trace r) = [] ∧ outcome r = Fulfilled tt.
Proof.
  apply (skip_ci_marker_is_a_no_op _ _ _ _
           {| commit := Some {| message := Some "chore(release): 1.2.0 [skip ci]" |} |}).
  - exists {| repositoryName := Some (JString "r1");
              commitId := Some (JString "c1") |}.
    vm_compute. apply list_elem_of_further, list_elem_of_here.
  - eexists _, _. split; [reflexivity|]. split; [reflexivity|].
    by exists "chore(release): 1.2.0 ", "".
Defined.

Lemma no_marker_starts_pipeline_once_witness :
  let r := invoke (repository_with None) sample_env (reference_created "main") 0 in
  start_requests (trace r) = [ {[ "name" := "nodejs-pkg-pipeline" ]} ].
Proof.
  intros r.
  destruct (no_marker_starts_pipeline_once (repository_with None) sample_env
              (reference_created "main") 0
              {| commit := Some {| message := None |} |})
    as [(pipelineName & Henv & Hstart & _) _].
  - exists {| repositoryName := Some (JString "r1");
              commitId := Some (JString "c1") |}.
    vm_compute. apply list_elem_of_further, list_elem_of_here.
  - intros (c & m & Hc & Hm & _). simpl in Hc. injection Hc as <-. discriminate Hm.
  - vm_compute in Henv. injection Henv as <-. exact Hstart.
Defined.

Lemma missing_pipeline_name_fails_before_any_call_witness :
  let r := invoke (repository_with (Some "feat: add x")) ∅
                  (reference_created "main") 0 in
  outcome r = Rejected (Error "process.env.PIPELINE_NAME is undefined") ∧
  network_calls (trace r) = [] ∧
  get_commit_requests (trace r) = [] ∧
  start_requests (trace r) = [] ∧
  world r = 0.
Proof.
  apply (missing_pipeline_name_fails_before_any_call
           (repository_with (Some "feat: add x")) ∅ (reference_created "main") 0).
  left. reflexivity.
Defined.

Lemma failed_lookup_propagates_witness :
  let r := invoke codecommit_down sample_env (reference_created "main") 0 in
  start_requests (trace r) = [] ∧
  outcome r =
    Rejected (ServiceException "CommitDoesNotExistException" "no such commit") ∧
  List.length (get_commit_requests (trace r)) = 1.
Proof.
  apply (failed_lookup_propagates codecommit_down sample_env
           (reference_created "main") 0).
  exists {| repositoryName := Some (JString "r1");
            commitId := Some (JString "c1") |}.
  vm_compute. apply list_elem_of_further, list_elem_of_here.
Defined.

Lemma marker_match_is_exact_substring_witness :
  (includes_skip_ci (Some {| message := Some "chore: bump [SKIP CI]" |}) = Some false ∧
   List.length (start_requests (trace
     (invoke (repository_with (Some "chore: bump [SKIP CI]")) sample_env
             (reference_created "main") 0))) = 1)
  ∧ (includes_skip_ci (Some {| message := Some "release[skip ci]done" |}) = Some true ∧
     start_requests (trace
       (invoke (repository_with (Some "release[skip ci]done")) sample_env
               (reference_created "main") 0)) = [])
  ∧ ¬ contains "[SKIP CI]" "[skip ci]".
Proof.
  assert (Hin : ∀ m,
    fetched (invoke (repository_with m) sample_env (reference_created "main") 0)
            {| commit := Some {| message := m |} |}).
  { intros m. exists {| repositoryName := Some (JString "r1");
                        commitId := Some (JString "c1") |}.
    apply list_elem_of_further, list_elem_of_here. }
  split; [|split].
  - destruct (marker_match_is_exact_substring
                (repository_with (Some "chore: bump [SKIP CI]")) sample_env
                (reference_created "main") 0
                {| message := Some "chore: bump [SKIP CI]" |}
                "chore: bump [SKIP CI]" (Hin _) eq_refl) as (Ha & _ & _).
    apply (Ha "[SKIP CI]").
    + reflexivity.
    + by exists "chore: bump ", "".
    + apply includes_not_contains. reflexivity.
  - destruct (marker_match_is_exact_substring
                (repository_with (Some "release[skip ci]done")) sample_env
                (reference_created "main") 0
                {| message := Some "release[skip ci]done" |}
                "release[skip ci]done" (Hin _) eq_refl) as (_ & Hb & _).
    by apply (Hb "release" "done").
  - destruct (marker_match_is_exact_substring
                (repository_with (Some "release[skip ci]done")) sample_env
                (reference_created "main") 0
                {| message := Some "release[skip ci]done" |}
                "release[skip ci]done" (Hin _) eq_refl) as (_ & _ & Hc).
    apply (Hc "[SKIP CI]"); [reflexivity | discriminate].
Defined.

Lemma requests_depend_only_on_detail_fields_witness :
  let r1 := invoke (repository_with (Some "feat: add x")) sample_env
                   (reference_created "main") 0 in
  let r2 := invoke (repository_with (Some "feat: add x")) sample_env
                   (reference_created "release") 0 in
  (∃ rest,
      trace r1 = Logged (LogText (JSON_stringify (reference_created "main"))) :: rest ∧
      trace r2 = Logged (LogText (JSON_stringify (reference_created "release"))) :: rest)
  ∧ network_calls (trace r1) = network_calls (trace r2)
  ∧ outcome r1 = outcome r2
  ∧ world r1 = world r2.
Proof.
  eapply (requests_depend_only_on_detail_fields
            (repository_with (Some "feat: add x")) sample_env
            (reference_created "main") (reference_created "release") 0);
    reflexivity.
Defined.

(** C7, as stated, fails: two events that differ in the branch name only
    agree on [repositoryName] and [commitId], yet the invocations do not
    act alike, because line 65 logs the serialised event. *)
Lemma log_line_reveals_other_fields :
  (∃ d1 d2,
      member "detail" (reference_created "main") = Some (JObject d1) ∧
      member "detail" (reference_created "release") = Some (JObject d2) ∧
      assoc "repositoryName" d1 = assoc "repositoryName" d2 ∧
      assoc "commitId" d1 = assoc "commitId" d2)
  ∧ trace (invoke (repository_with (Some "feat: add x")) sample_env
                  (reference_created "main") 0)
    ≠ trace (invoke (repository_with (Some "feat: add x")) sample_env
                    (reference_created "release") 0).
Proof.
  split.
  - eexists _, _. repeat split; reflexivity.
  - intros H. apply (f_equal head) in H. vm_compute in H. discriminate H.
Qed.

Lemma replay_starts_pipeline_again_witness :
  let r1 := invoke (repository_with (Some "feat: add x")) sample_env
                   (reference_created "main") 0 in
  let r2 := invoke (repository_with (Some "feat: add x")) sample_env
                   (reference_created "main") (world r1) in
  ∃ pipelineName,
    sample_env !! "PIPELINE_NAME" = Some pipelineName ∧
    start_requests (trace r1) = [ {[ "name" := pipelineName ]} ] ∧
    start_requests (trace r2) = [ {[ "name" := pipelineName ]} ] ∧
    start_requests (trace r1 ++ trace r2) =
      [ {[ "name" := pipelineName ]}; {[ "name" := pipelineName ]} ].
Proof.
  assert (Hno : ¬ has_marker {| commit := Some {| message := Some "feat: add x" |} |}).
  { apply trigger_iff_no_marker. reflexivity. }
  apply (replay_starts_pipeline_again
           (repository_with (Some "feat: add x")) sample_env
           (reference_created "main") 0
           {| commit := Some {| message := Some "feat: add x" |} |}
           {| commit := Some {| message := Some "feat: add x" |} |});
    try exact Hno;
    exists {| repositoryName := Some (JString "r1");
              commitId := Some (JString "c1") |};
    apply list_elem_of_further, list_elem_of_here.
Defined.

(** ** Further properties of the handler *)

(** Turns the membership of any event in an explicit trace into the
    equalities it amounts to. *)
Ltac in_explicit_trace :=
  repeat match goal with
  | H : start_failed ?r _ |- _ =>
      lazymatch r with
      | context [invoke] => fail
      | _ => destruct H as [? H]; simpl in H
      end
  | H : _ ∈ _ :: _ |- _ => apply elem_of_cons in H as [H|H]
  | H : _ ∈ [] |- _ => by apply elem_of_nil in H
  | H : @eq Event _ _ |- _ => first [discriminate H | injection H as ? ?]; subst
  end.

(** X1. When the StartPipelineExecution request is rejected, the promise of
    the invocation is rejected with that error, the request was sent once,
    and nothing is logged after it. *)
Theorem failed_start_propagates {W} (S : Services W) env event w e :
  let r := invoke S env event w in
  start_failed r e →
  outcome r = Rejected e ∧
  List.length (start_requests (trace r)) = 1 ∧
  ∃ input, last (trace r) = Some (StartPipelineExecution input (Rejected e)).
Proof.
  intros r Hf. subst r.
  by_shape S env event w; in_explicit_trace; try done.
  repeat split; try done. by eexists.
Qed.

Lemma failed_start_propagates_witness :
  let r := invoke (codepipeline_down (Some "feat: add x")) sample_env
                  (reference_created "main") 0 in
  outcome r =
    Rejected (ServiceException "PipelineNotFoundException" "no such pipeline") ∧
  List.length (start_requests (trace r)) = 1 ∧
  ∃ input,
    last (trace r) =
      Some (StartPipelineExecution input
              (Rejected (ServiceException "PipelineNotFoundException"
                                          "no such pipeline"))).
Proof.
  apply (failed_start_propagates (codepipeline_down (Some "feat: add x"))
           sample_env (reference_created "main") 0).
  exists {[ "name" := "nodejs-pkg-pipeline" ]}.
  apply list_elem_of_further, list_elem_of_further, list_elem_of_further,
        list_elem_of_here.
Defined.

(** X2. A start request is sent only after the commit was fetched and found
    without the marker: whenever the trace holds a StartPipelineExecution
    request, it names [PIPELINE_NAME] and a fulfilled GetCommit whose
    metadata lacks the marker comes earlier in the trace. *)
Theorem start_only_after_fetch {W} (S : Services W) env event w input response :
  let r := invoke S env event w in
  StartPipelineExecution input response ∈ trace r →
  ∃ pipelineName request out before between after,
    env !! "PIPELINE_NAME" = Some pipelineName ∧
    input = {[ "name" := pipelineName ]} ∧
    ¬ has_marker out ∧
    trace r = (before ++ GetCommit request (Fulfilled out)
                 :: between ++ StartPipelineExecution input response :: after)%list.
Proof.
  intros r Hin. subst r.
  by_shape S env event w; in_explicit_trace;
    match goal with
    | Hc : configured _ ?n, Hm : lnot _ = true |- _ =>
        destruct Hc as [Hc _]; apply trigger_iff_no_marker in Hm;
        exists n; eexists _, _, [_], [_], _; by repeat split
    end.
Qed.

Lemma start_only_after_fetch_witness :
  ∃ pipelineName request out before between after,
    sample_env !! "PIPELINE_NAME" = Some pipelineName ∧
    ({[ "name" := "nodejs-pkg-pipeline" ]} : gmap string string)
      = {[ "name" := pipelineName ]} ∧
    ¬ has_marker out ∧
    trace (invoke (repository_with (Some "feat: add x")) sample_env
                  (reference_created "main") 0)
      = (before ++ GetCommit request (Fulfilled out)
           :: between
           ++ StartPipelineExecution {[ "name" := "nodejs-pkg-pipeline" ]}
                (Fulfilled {| pipelineExecutionId := Some "0" |})
           :: after)%list.
Proof.
  apply (start_only_after_fetch (repository_with (Some "feat: add x"))
           sample_env (reference_created "main") 0).
  apply list_elem_of_further, list_elem_of_further, list_elem_of_further,
        list_elem_of_here.
Defined.

(** X3. With [PIPELINE_NAME] set, an event that is [null] or whose [detail]
    is missing or [null] makes the invocation fail with a TypeError before
    any network call. *)
Theorem event_without_detail_fails_before_any_call
    {W} (S : Services W) env event w pipelineName :
  configured env pipelineName →
  event = JNull ∨ member "detail" event = None
    ∨ member "detail" event = Some JNull →
  let r := invoke S env event w in
  outcome r = Rejected TypeError ∧ network_calls (trace r) = [] ∧ world r = w.
Proof.
  intros Hcfg Hev r. subst r.
  assert (Hd : destructure_detail event = Throw TypeError).
  { unfold destructure_detail.
    destruct Hev as [->|[Hev|Hev]]; [done|by destruct event; rewrite ?Hev..]. }
  destruct Hcfg as [Hcfg Hne].
  by_shape S env event w; try done;
    first [congruence | match goal with H : _ ∨ _ |- _ => destruct H; congruence end].
Qed.

Lemma event_without_detail_fails_before_any_call_witness :
  let r := invoke (repository_with (Some "feat: add x")) sample_env
                  (JObject [("version", JString "0")]) 0 in
  outcome r = Rejected TypeError ∧ network_calls (trace r) = [] ∧ world r = 0.
Proof.
  apply (event_without_detail_fails_before_any_call
           (repository_with (Some "feat: add x")) sample_env
           (JObject [("version", JString "0")]) 0 "nodejs-pkg-pipeline").
  - split; [reflexivity | discriminate].
  - right. left. reflexivity.
Defined.

(** X4. With [PIPELINE_NAME] set and an event whose [detail] is not [null],
    exactly one GetCommit request is sent, and it carries the
    [repositoryName] and the [commitId] of [event.detail] ([undefined] when
    the detail lacks them). *)
Theorem lookup_carries_detail_fields
    {W} (S : Services W) env event w pipelineName detail :
  configured env pipelineName →
  member "detail" event = Some detail → detail ≠ JNull →
  get_commit_requests (trace (invoke S env event w)) =
    [ {| repositoryName := member "repositoryName" detail;
         commitId := member "commitId" detail |} ].
Proof.
  intros Hcfg Hdetail Hnull.
  assert (Hd : destructure_detail event =
               Ret {| repositoryName := member "repositoryName" detail;
                      commitId := member "commitId" detail |}).
  { unfold destructure_detail. destruct event; try discriminate Hdetail.
    rewrite Hdetail. by destruct detail. }
  destruct Hcfg as [Hcfg Hne].
  by_shape S env event w; simpl;
    first [congruence | match goal with H : _ ∨ _ |- _ => destruct H; congruence end].
Qed.

Lemma lookup_carries_detail_fields_witness :
  get_commit_requests
    (trace (invoke (repository_with (Some "feat: add x")) sample_env
                   (reference_created "main") 0)) =
    [ {| repositoryName := Some (JString "r1");
         commitId := Some (JString "c1") |} ].
Proof.
  apply (lookup_carries_detail_fields
           (repository_with (Some "feat: add x")) sample_env
           (reference_created "main") 0 "nodejs-pkg-pipeline"
           (JObject [("event", JString "referenceCreated");
                     ("repositoryName", JString "r1");
                     ("referenceType", JString "branch");
                     ("referenceName", JString "main");
                     ("commitId", JString "c1")])).
  - split; [reflexivity | discriminate].
  - reflexivity.
  - discriminate.
Defined.

(** X5. Every invocation first logs the serialised event, and makes at most
    two network calls: at most one GetCommit and at most one
    StartPipelineExecution. *)
Theorem logs_event_then_at_most_two_calls {W} (S : Services W) env event w :
  let r := invoke S env event w in
  head (trace r) = Some (Logged (LogText (JSON_stringify event))) ∧
  (List.length (get_commit_requests (trace r)) ≤ 1)%nat ∧
  (List.length (network_calls (trace r)) ≤ 2)%nat.
Proof.
  intros r. subst r. by_shape S env event w; repeat split; cbn; lia.
Qed.

(** X6. The promise of an invocation is fulfilled exactly when the commit
    was fetched and either its message carries the marker or the start
    request was fulfilled. *)
Theorem fulfilled_iff_skipped_or_started {W} (S : Services W) env event w :
  let r := invoke S env event w in
  outcome r = Fulfilled tt ↔
  ∃ out, fetched r out ∧
         (has_marker out ∨
          ∃ input res, StartPipelineExecution input (Fulfilled res) ∈ trace r).
Proof.
  intros r. subst r.
  by_shape S env event w; (split; [intros Hout | intros (out' & Hf & Hor)]);
    try discriminate Hout; try done.
  all: try (by destruct Hf as [? Hf]; simpl in Hf; in_explicit_trace).
  - exists out. split.
    + eexists. apply list_elem_of_further, list_elem_of_here.
    + left. by apply skip_iff_marker.
  - exists out. split.
    + eexists. apply list_elem_of_further, list_elem_of_here.
    + right. eexists _, _.
      apply list_elem_of_further, list_elem_of_further, list_elem_of_further,
            list_elem_of_here.
  - destruct Hf as [? Hf]. simpl in Hf. in_explicit_trace.
    destruct Hor as [Hm|(? & ? & Hin)].
    + apply skip_iff_marker in Hm. congruence.
    + in_explicit_trace.
Qed.

End CommitFilterSpec.

(** * Properties of the pipeline construct *)

Module PkgPipelineSpec.
Import JS PkgPipeline.

(** ** Validation of the CodeArtifact coordinates *)

Lemma falsy_absent_or_empty (s : option string) :
  falsy s = true ↔ absent_or_empty s.
Proof.
  unfold absent_or_empty.
  destruct s as [[|a s]|]; simpl; split; intros H;
    first [done | by auto | by destruct H].
Qed.

(** C9. When one of [codeArtifactDomain], [codeArtifactRepo] and
    [codeArtifactNamespace] is absent or empty, the constructor throws the
    error of line 141, having registered its own node and nothing else: the
    tree holds no resource it did not hold before, and no command object
    was created or changed. *)
Theorem missing_coordinates_throw_before_any_resource host id props st :
  absent_or_empty (codeArtifactDomain props) ∨
  absent_or_empty (codeArtifactRepo props) ∨
  absent_or_empty (codeArtifactNamespace props) →
  ∃ st',
    PkgPipeline host id props st =
      (st', inl (Error
        "codeArtifactDomain, codeArtifactRepo, and codeArtifactNamespace must be defined")) ∧
    tree st' = (tree st ++ [Node id])%list ∧
    filter (λ c, is_resource c = true) (tree st') =
      filter (λ c, is_resource c = true) (tree st) ∧
    objects st' = objects st.
Proof.
  rewrite <- !falsy_absent_or_empty. intros H.
  assert (Hcheck : falsy (codeArtifactDomain props)
                   || falsy (codeArtifactRepo props)
                   || falsy (codeArtifactNamespace props) = true).
  { rewrite !orb_true_iff. tauto. }
  unfold PkgPipeline, mbind, M_bind, create. rewrite Hcheck.
  eexists. split; [reflexivity|]. simpl.
  rewrite filter_app. simpl. rewrite filter_cons_False by (simpl; congruence).
  by rewrite filter_nil, app_nil_r.
Qed.

Lemma missing_coordinates_throw_before_any_resource_witness :
  ∃ st',
    PkgPipeline sample_host "TestPkgPipeline"
      {| buildImage := None;
         codeArtifactDomain := Some "test-domain";
         codeArtifactRepo := Some "";
         codeArtifactNamespace := Some "@test-namespace";
         computeType := None;
         lintCommands := None;
         testCommands := None;
         releaseCommands := None;
         globalInstallCommands := None;
         globalPreBuildCommands := None;
         name := "test";
         repoDescription := None;
         releaseBranch := None |} empty_state =
      (st', inl (Error
        "codeArtifactDomain, codeArtifactRepo, and codeArtifactNamespace must be defined")) ∧
    tree st' = (tree empty_state ++ [Node "TestPkgPipeline"])%list ∧
    filter (λ c, is_resource c = true) (tree st') =
      filter (λ c, is_resource c = true) (tree empty_state) ∧
    objects st' = objects empty_state.
Proof.
  apply missing_coordinates_throw_before_any_resource.
  right. left. right. reflexivity.
Defined.

(** ** Conditional assignments on the store *)

Lemma assign_if_missing_run cmd k v st :
  assign_if_missing cmd k v st =
    ({| objects := fill cmd k v (objects st); tree := tree st |}, inr tt).
Proof.
  unfold assign_if_missing, fill, mbind, M_bind, read, assign. simpl.
  destruct (member_of (objects st) cmd k); [|done]. by destruct st.
Qed.

(** An assignment keeps the objects of the store in place. *)
Lemma fill_is_Some cmd k v (h : gmap positive (gmap string (list string))) c :
  is_Some (fill cmd k v h !! c) ↔ is_Some (h !! c).
Proof.
  unfold fill. destruct (member_of h cmd k); [done|].
  rewrite lookup_alter. case_decide; [subst|done].
  by rewrite fmap_is_Some.
Qed.

(** A member that is defined keeps its value. *)
Lemma member_of_fill_Some cmd k v (h : gmap positive (gmap string (list string)))
    c k' x :
  member_of h c k' = Some x → member_of (fill cmd k v h) c k' = Some x.
Proof.
  unfold fill. destruct (member_of h cmd k) eqn:Hcur; [done|].
  unfold member_of in *. rewrite lookup_alter. case_decide; [subst|done].
  destruct (h !! c) as [o|]; [|done]. simpl in *. intros Hx.
  rewrite lookup_insert. case_decide; [subst; congruence|done].
Qed.

(** A member that is undefined takes the value when the assignment is to
    it, and stays undefined otherwise. *)
Lemma member_of_fill_None cmd k v (h : gmap positive (gmap string (list string)))
    c k' :
  is_Some (h !! c) → member_of h c k' = None →
  member_of (fill cmd k v h) c k' =
    if decide (cmd = c ∧ k = k') then Some v else None.
Proof.
  intros [o Ho] Hnone. unfold fill.
  case_decide as Heq.
  - destruct Heq as [-> ->]. rewrite Hnone.
    unfold member_of. rewrite lookup_alter, decide_True, Ho by done. simpl.
    by rewrite lookup_insert_eq.
  - destruct (member_of h cmd k) eqn:Hcur; [done|].
    unfold member_of in *. rewrite lookup_alter. case_decide; [subst|done].
    rewrite Ho in *. simpl in *. rewrite lookup_insert_ne; [done|].
    intros ->. by apply Heq.
Qed.

Lemma fills_is_Some ops (h : gmap positive (gmap string (list string))) c :
  is_Some (fills ops h !! c) ↔ is_Some (h !! c).
Proof.
  revert h. induction ops as [|[[cmd k] v] ops IH]; intros h; simpl; [done|].
  by rewrite IH, fill_is_Some.
Qed.

Lemma member_of_fills_Some ops (h : gmap positive (gmap string (list string)))
    c k x :
  member_of h c k = Some x → member_of (fills ops h) c k = Some x.
Proof.
  revert h. induction ops as [|[[cmd k'] v] ops IH]; intros h; simpl; [done|].
  intros Hx. by apply IH, member_of_fill_Some.
Qed.

(** After a sequence of conditional assignments, a member has the value it
    had, or else the value of the first assignment to it. *)
Lemma member_of_fills ops (h : gmap positive (gmap string (list string))) c k :
  is_Some (h !! c) →
  member_of (fills ops h) c k =
    match member_of h c k with
    | Some x => Some x
    | None => first_fill c k ops
    end.
Proof.
  intros Hc. destruct (member_of h c k) as [x|] eqn:Hcur.
  { by apply member_of_fills_Some. }
  revert h Hc Hcur.
  induction ops as [|[[cmd k'] v] ops IH]; intros h Hc Hcur; simpl; [done|].
  pose proof (member_of_fill_None cmd k' v h c k Hc Hcur) as Hstep.
  case_decide.
  - by apply member_of_fills_Some.
  - apply IH; [by apply fill_is_Some | done].
Qed.

(** ** The defaulting as a sequence of conditional assignments *)

Lemma or_new_run given literal st :
  or_new given literal st =
    ({| objects := (or_new_store given literal (objects st)).2;
        tree := tree st |},
     inr (or_new_store given literal (objects st)).1).
Proof. destruct given; [by destruct st | done]. Qed.

Lemma destructure_commands_run props st l r t h3 :
  destructured props (objects st) = (l, r, t, h3) →
  destructure_commands props st =
    ({| objects := h3; tree := tree st |}, inr (l, r, t)).
Proof.
  unfold destructured, destructure_commands, mbind, M_bind.
  rewrite or_new_run. destruct (or_new_store (lintCommands props) _ _) as [l' h1].
  rewrite or_new_run. simpl.
  destruct (or_new_store (releaseCommands props) _ _) as [r' h2].
  rewrite or_new_run. simpl.
  destruct (or_new_store (testCommands props) _ _) as [t' h3'].
  simpl. by intros [= -> -> -> ->].
Qed.

Lemma default_commands_run props st l r t h3 :
  destructured props (objects st) = (l, r, t, h3) →
  default_commands props st =
    ({| objects := fills (assignments props l r t) h3; tree := tree st |},
     inr (l, r, t)).
Proof.
  intros Hd. unfold default_commands, mbind at 1, M_bind at 1.
  rewrite (destructure_commands_run _ _ _ _ _ _ Hd).
  unfold for_of, mbind, M_bind, mret, M_ret.
  repeat (rewrite assign_if_missing_run; cbn [objects tree]).
  reflexivity.
Qed.

(** ** The references after destructuring *)

Lemma lookup_fresh (h : gmap positive (gmap string (list string))) :
  h !! fresh (dom h) = None.
Proof. apply not_elem_of_dom, is_fresh. Qed.

Lemma fresh_ne (h : gmap positive (gmap string (list string))) c :
  is_Some (h !! c) → fresh (dom h) ≠ c.
Proof. intros [o Ho] <-. by rewrite lookup_fresh in Ho. Qed.

Lemma or_new_store_spec given literal
    (h : gmap positive (gmap string (list string))) x h' :
  or_new_store given literal h = (x, h') →
  (∀ c, given = Some c → is_Some (h !! c)) →
  is_Some (h' !! x) ∧
  (∀ c, is_Some (h !! c) → h' !! c = h !! c) ∧
  provided given literal h h' x.
Proof.
  unfold or_new_store, provided. destruct given as [c|]; intros [= <- <-] Hv.
  - auto.
  - rewrite lookup_insert_eq, lookup_fresh. repeat split; [by eexists|].
    intros c Hc. apply lookup_insert_ne. by apply fresh_ne.
Qed.

Lemma destructured_spec props (h : gmap positive (gmap string (list string)))
    l r t h3 :
  valid_props props h →
  destructured props h = (l, r, t, h3) →
  (is_Some (h3 !! l) ∧ is_Some (h3 !! r) ∧ is_Some (h3 !! t)) ∧
  (∀ c, is_Some (h !! c) → h3 !! c = h !! c) ∧
  provided (lintCommands props)
    {[ "install" := global_install props;
       "pre_build" := global_pre_build props;
       "build" := defaultLintCommands ]} h h3 l ∧
  provided (releaseCommands props)
    {[ "install" := global_install props;
       "pre_build" := global_pre_build props;
       "build" := defaultBuildCommands;
       "post_build" := defaultReleaseCommands ]} h h3 r ∧
  provided (testCommands props)
    {[ "install" := global_install props;
       "pre_build" := global_pre_build props;
       "build" := defaultTestCommands ]} h h3 t ∧
  (lintCommands props = None ∨ releaseCommands props = None → l ≠ r) ∧
  (lintCommands props = None ∨ testCommands props = None → l ≠ t) ∧
  (releaseCommands props = None ∨ testCommands props = None → r ≠ t).
Proof.
  unfold valid_props, destructured. intros Hvalid.
  destruct (or_new_store (lintCommands props) _ h) as [l' h1] eqn:E1.
  destruct (or_new_store (releaseCommands props) _ h1) as [r' h2] eqn:E2.
  destruct (or_new_store (testCommands props) _ h2) as [t' h3'] eqn:E3.
  intros [= -> -> -> ->].
  apply or_new_store_spec in E1 as (Hl & K1 & P1); [|by auto].
  assert (V1 : ∀ c, is_Some (h !! c) → is_Some (h1 !! c))
    by (intros c Hc; by rewrite K1).
  apply or_new_store_spec in E2 as (Hr & K2 & P2);
    [|intros c Hc; apply V1, Hvalid; auto].
  assert (V2 : ∀ c, is_Some (h1 !! c) → is_Some (h2 !! c))
    by (intros c Hc; by rewrite K2).
  apply or_new_store_spec in E3 as (Ht & K3 & P3);
    [|intros c Hc; apply V2, V1, Hvalid; auto].
  assert (V3 : ∀ c, is_Some (h2 !! c) → is_Some (h3 !! c))
    by (intros c Hc; by rewrite K3).
  assert (N1 : ∀ c, h1 !! c = None → h !! c = None).
  { intros c Hc. destruct (h !! c) eqn:E; [|done].
    rewrite <- Hc, K1, E; [done|]. by rewrite E. }
  assert (N2 : ∀ c, h2 !! c = None → h1 !! c = None).
  { intros c Hc. destruct (h1 !! c) eqn:E; [|done].
    rewrite <- Hc, K2, E; [done|]. by rewrite E. }
  unfold provided in *.
  split; [by auto|]. split.
  { intros c Hc. rewrite K3, K2, K1; auto. }
  split.
  { destruct (lintCommands props); [done|]. destruct P1 as [P1 P1'].
    split; [done|]. rewrite K3, K2; auto. }
  split.
  { destruct (releaseCommands props); [done|]. destruct P2 as [P2 P2'].
    split; [by auto|]. rewrite K3; auto. }
  split.
  { destruct (testCommands props); [done|]. destruct P3 as [P3 P3'].
    split; [by auto|done]. }
  split; [|split].
  - intros Hfresh ->.
    destruct (lintCommands props) as [l0|] eqn:EL,
             (releaseCommands props) as [r0|] eqn:ER;
      try (by destruct Hfresh).
    + subst. destruct P2 as [P2 _]. rewrite P2 in Hl. by destruct Hl.
    + subst. destruct P1 as [P1 _]. destruct (Hvalid r0) as [? ?]; [by auto|].
      congruence.
    + destruct P2 as [P2 _]. rewrite P2 in Hl. by destruct Hl.
  - intros Hfresh ->.
    destruct (lintCommands props) as [l0|] eqn:EL,
             (testCommands props) as [t0|] eqn:ET;
      try (by destruct Hfresh).
    + subst. destruct P3 as [P3 _]. apply V2 in Hl. rewrite P3 in Hl.
      by destruct Hl.
    + subst. destruct P1 as [P1 _]. destruct (Hvalid t0) as [? ?]; [by auto|].
      congruence.
    + destruct P3 as [P3 _]. apply V2 in Hl. rewrite P3 in Hl. by destruct Hl.
  - intros Hfresh ->.
    destruct (releaseCommands props) as [r0|] eqn:ER,
             (testCommands props) as [t0|] eqn:ET;
      try (by destruct Hfresh).
    + subst. destruct P3 as [P3 _]. rewrite P3 in Hr. by destruct Hr.
    + subst. destruct P2 as [P2 _]. apply N1 in P2.
      destruct (Hvalid t0) as [? ?]; [by auto|]. congruence.
    + destruct P3 as [P3 _]. rewrite P3 in Hr. by destruct Hr.
Qed.

(** ** The invariant of the defaulting *)

(** Walks down the conditional assignments looking for the first one to
    member [k] of [x]. *)
Ltac first_assignment :=
  unfold assignments; cbn [first_fill];
  repeat case_decide;
  first
    [ done
    | by eauto
    | exfalso; match goal with H : ¬ (_ ∧ _) |- _ => by apply H end
    | by (repeat match goal with H : _ ∧ _ |- _ => destruct H end; congruence) ].

(** After the defaulting, whatever objects the caller passed and however
    they are shared between the three props, every phase that a buildspec
    reads is defined. *)
Lemma defaulting_defines_every_phase props st :
  valid_props props (objects st) →
  ∃ st' l r t,
    default_commands props st = (st', inr (l, r, t)) ∧
    tree st' = tree st ∧
    (defined (objects st') l "install" ∧ defined (objects st') l "pre_build" ∧
     defined (objects st') l "build") ∧
    (defined (objects st') t "install" ∧ defined (objects st') t "pre_build" ∧
     defined (objects st') t "build") ∧
    (defined (objects st') r "install" ∧ defined (objects st') r "pre_build" ∧
     defined (objects st') r "build" ∧ defined (objects st') r "post_build").
Proof.
  intros Hvalid.
  destruct (destructured props (objects st)) as [[[l r] t] h3] eqn:Hd.
  destruct (destructured_spec _ _ _ _ _ _ Hvalid Hd) as ((Hl & Hr & Ht) & _).
  exists {| objects := fills (assignments props l r t) h3; tree := tree st |},
         l, r, t.
  split; [by apply default_commands_run|]. split; [done|].
  unfold defined. cbn [objects].
  repeat split;
    (rewrite member_of_fills by done;
     match goal with
     | |- is_Some (match ?m with _ => _ end) => destruct m; [by eauto|]
     end;
     first_assignment).
Qed.




(** ** One object for two stages *)

(** C10 at the props [{ lintCommands: shared, testCommands: shared }] with
    [shared = { pre_build: ["npm ci"] }]. The object has no [build]; the
    assignment of line 172 gives it the lint commands, the test of line 176
    then finds [build] defined, and the Test project is created with
    [npm run lint] as its build phase, not with the documented default
    [npm run test]. Every member is defined all the same. *)
Theorem shared_object_gives_test_stage_the_lint_build :
  ∃ st' r,
    default_commands (test_props (Some 1%positive) (Some 1%positive) None)
                     shared_object_state
      = (st', inr (1%positive, r, 1%positive)) ∧
    member_of (objects shared_object_state) 1 "build" = None ∧
    member_of (objects st') 1 "build" = Some defaultLintCommands ∧
    ¬ falls_back (objects shared_object_state) (objects st')
        (Some 1%positive) 1 "build" defaultTestCommands ∧
    project_phases "TestPipelineProject"
      (tree (PkgPipeline sample_host "TestPkgPipeline"
               (test_props (Some 1%positive) (Some 1%positive) None)
               shared_object_state).1)
      = Some [ ("install",
                Some ["npm install -g npm@7";
                      "aws codeartifact login --tool npm --domain test-domain --repository test-repo --namespace @test-namespace"]);
               ("pre_build", Some ["npm ci"]);
               ("build", Some ["npm run lint"]) ].
Proof.
  eexists _, _. split; [vm_compute; reflexivity|].
  split; [reflexivity|]. split; [vm_compute; reflexivity|].
  split; [|vm_compute; reflexivity].
  unfold falls_back. vm_compute. discriminate.
Qed.

(** ** The constructor as a whole *)

Lemma not_absent_or_empty_falsy (s : option string) :
  ¬ absent_or_empty s → falsy s = false.
Proof.
  rewrite <- falsy_absent_or_empty. by destruct (falsy s).
Qed.

(** [create_resources] never throws, leaves the store alone and appends to
    the tree. *)
Lemma create_resources_run host props l r t st :
  create_resources host props l r t st =
    ({| objects := objects st;
        tree := tree st ++ created host props (objects st) l r t |}, inr tt).
Proof.
  cbv [created create_resources addCodeArtifactGetAuthPolicies
       pipeline_project mbind M_bind create objects tree fst].
  rewrite <- !app_assoc. reflexivity.
Qed.

Lemma default_commands_tree props st st' res :
  default_commands props st = (st', res) → tree st' = tree st.
Proof.
  destruct (destructured props (objects st)) as [[[l r] t] h3] eqn:Hd.
  rewrite (default_commands_run _ _ _ _ _ _ Hd). by intros [= <- _].
Qed.

(** With the coordinates given, the constructor is the defaulting followed
    by the creation of the resources. *)
Lemma PkgPipeline_run host id props st st1 l r t :
  coordinates_given props →
  default_commands props {| objects := objects st; tree := tree st ++ [Node id] |}
    = (st1, inr (l, r, t)) →
  PkgPipeline host id props st =
    ({| objects := objects st1;
        tree := tree st ++ Node id :: created host props (objects st1) l r t |},
     inr tt).
Proof.
  intros (Hd & Hr & Hn) Hrun.
  pose proof (default_commands_tree _ _ _ _ Hrun) as Htree. simpl in Htree.
  unfold PkgPipeline, mbind at 1, M_bind at 1, create at 1.
  rewrite !not_absent_or_empty_falsy by done. simpl.
  unfold mbind, M_bind. rewrite Hrun, create_resources_run, Htree.
  by rewrite <- app_assoc.
Qed.

(** With the coordinates given the constructor returns, whatever else the
    props hold. *)
Lemma PkgPipeline_succeeds host id props st :
  coordinates_given props →
  ∃ h l r t,
    PkgPipeline host id props st =
      ({| objects := h; tree := tree st ++ Node id :: created host props h l r t |},
       inr tt) ∧
    default_commands props
      {| objects := objects st; tree := tree st ++ [Node id] |}
      = ({| objects := h; tree := tree st ++ [Node id] |}, inr (l, r, t)).
Proof.
  intros Hc.
  destruct (destructured props (objects st)) as [[[l r] t] h3] eqn:Hd.
  pose proof (default_commands_run props
    {| objects := objects st; tree := tree st ++ [Node id] |} l r t h3 Hd) as Hrun.
  eexists _, l, r, t. split; [|exact Hrun].
  by rewrite (PkgPipeline_run _ _ _ _ _ _ _ _ Hc Hrun).
Qed.

(** Solves [coordinates_given] and [valid_props] on the sample props. *)
Ltac sample_props :=
  lazymatch goal with
  | |- coordinates_given _ => repeat split; intros [H|H]; discriminate H
  | |- valid_props _ _ =>
      intros c [H|[H|H]]; try discriminate H; injection H as <-;
      by eexists
  end.














(** ** The constructor and the caller's objects *)

Lemma or_new_store_keeps given literal
    (h : gmap positive (gmap string (list string))) x h' c :
  or_new_store given literal h = (x, h') →
  is_Some (h !! c) → h' !! c = h !! c.
Proof.
  unfold or_new_store. destruct given; intros [= <- <-] Hc; [done|].
  apply lookup_insert_ne. by apply fresh_ne.
Qed.

Lemma or_new_store_ref given literal
    (h : gmap positive (gmap string (list string))) x h' :
  or_new_store given literal h = (x, h') → given = Some x ∨ h !! x = None.
Proof.
  unfold or_new_store. destruct given; intros [= <- <-]; [by left|].
  right. apply lookup_fresh.
Qed.

(** The three references are the caller's or new, and the objects of the
    caller stay where they are. *)
Lemma destructured_keeps props (h : gmap positive (gmap string (list string)))
    l r t h3 :
  destructured props h = (l, r, t, h3) →
  (∀ c, is_Some (h !! c) → h3 !! c = h !! c) ∧
  (lintCommands props = Some l ∨ h !! l = None) ∧
  (releaseCommands props = Some r ∨ h !! r = None) ∧
  (testCommands props = Some t ∨ h !! t = None).
Proof.
  unfold destructured.
  destruct (or_new_store (lintCommands props) _ h) as [l' h1] eqn:E1.
  destruct (or_new_store (releaseCommands props) _ h1) as [r' h2] eqn:E2.
  destruct (or_new_store (testCommands props) _ h2) as [t' h3'] eqn:E3.
  intros [= -> -> -> ->].
  assert (K1 : ∀ c, is_Some (h !! c) → h1 !! c = h !! c)
    by (intros c Hc; by apply (or_new_store_keeps _ _ _ _ _ c E1)).
  assert (K2 : ∀ c, is_Some (h !! c) → h2 !! c = h !! c).
  { intros c Hc. rewrite <- K1 by done.
    apply (or_new_store_keeps _ _ _ _ _ c E2). by rewrite K1. }
  assert (K3 : ∀ c, is_Some (h !! c) → h3 !! c = h !! c).
  { intros c Hc. rewrite <- K2 by done.
    apply (or_new_store_keeps _ _ _ _ _ c E3). by rewrite K2. }
  split; [done|].
  apply or_new_store_ref in E1, E2, E3.
  repeat split.
  - done.
  - destruct E2 as [?|E2]; [by left|right].
    destruct (h !! r) eqn:E; [|done]. rewrite <- E2, K1; [done|by rewrite E].
  - destruct E3 as [?|E3]; [by left|right].
    destruct (h !! t) eqn:E; [|done]. rewrite <- E3, K2; [done|by rewrite E].
Qed.

Lemma fill_lookup_ne cmd k v (h : gmap positive (gmap string (list string))) c :
  cmd ≠ c → fill cmd k v h !! c = h !! c.
Proof.
  intros Hne. unfold fill. destruct (member_of h cmd k); [done|].
  by apply lookup_alter_ne.
Qed.

Lemma fill_defined_id cmd k v (h : gmap positive (gmap string (list string))) :
  defined h cmd k → fill cmd k v h = h.
Proof. unfold defined, fill. by intros [x ->]. Qed.

(** The store the constructor leaves: the one it found when it throws, the
    one the conditional assignments give otherwise. *)
Lemma PkgPipeline_objects host id props st :
  objects (PkgPipeline host id props st).1 = objects st ∨
  ∃ l r t h3,
    destructured props (objects st) = (l, r, t, h3) ∧
    objects (PkgPipeline host id props st).1 = fills (assignments props l r t) h3.
Proof.
  destruct (falsy (codeArtifactDomain props) || falsy (codeArtifactRepo props)
            || falsy (codeArtifactNamespace props)) eqn:E.
  - left. unfold PkgPipeline, mbind, M_bind, create. by rewrite E.
  - right.
    destruct (destructured props (objects st)) as [[[l r] t] h3] eqn:Hd.
    exists l, r, t, h3. split; [done|].
    pose proof (default_commands_run props
                  {| objects := objects st; tree := tree st ++ [Node id] |}
                  l r t h3 Hd) as Hrun.
    unfold PkgPipeline, mbind at 1, M_bind at 1, create at 1.
    rewrite E. unfold mbind, M_bind.
    by rewrite Hrun, create_resources_run.
Qed.

(** X10. Whether it throws or returns, the constructor never changes or
    removes a member that a command object had, and it leaves alone every
    object that the props do not refer to: it only adds missing members to
    the objects it was given (and creates objects of its own). *)
Theorem constructor_only_adds_members host id props st :
  let st' := (PkgPipeline host id props st).1 in
  (∀ c k x,
      member_of (objects st) c k = Some x →
      member_of (objects st') c k = Some x) ∧
  (∀ c,
      is_Some (objects st !! c) →
      lintCommands props ≠ Some c → releaseCommands props ≠ Some c →
      testCommands props ≠ Some c →
      objects st' !! c = objects st !! c).
Proof.
  intros st'. subst st'.
  destruct (PkgPipeline_objects host id props st)
    as [->|(l & r & t & h3 & Hd & ->)]; [done|].
  destruct (destructured_keeps _ _ _ _ _ _ Hd) as (Hkeep & Hl & Hr & Ht).
  split.
  - intros c k x Hx. apply member_of_fills_Some.
    unfold member_of in *. rewrite Hkeep; [done|].
    by destruct (objects st !! c).
  - intros c Hc Nl Nr Nt.
    assert (l ≠ c) by (intros ->; destruct Hl as [?|Hl]; [done|];
                        rewrite Hl in Hc; by destruct Hc).
    assert (r ≠ c) by (intros ->; destruct Hr as [?|Hr]; [done|];
                        rewrite Hr in Hc; by destruct Hc).
    assert (t ≠ c) by (intros ->; destruct Ht as [?|Ht]; [done|];
                        rewrite Ht in Hc; by destruct Hc).
    unfold assignments, fills. rewrite !fill_lookup_ne by done.
    by apply Hkeep.
Qed.

Lemma constructor_only_adds_members_witness :
  member_of
    (objects (PkgPipeline sample_host "TestPkgPipeline" partial_test_props
                shared_object_state).1) 1 "pre_build" = Some ["npm ci"] ∧
  objects (PkgPipeline sample_host "TestPkgPipeline" (test_props None None None)
             shared_object_state).1 !! 1%positive
    = objects shared_object_state !! 1%positive.
Proof.
  split.
  - apply (constructor_only_adds_members sample_host "TestPkgPipeline"
             partial_test_props shared_object_state).
    reflexivity.
  - apply (constructor_only_adds_members sample_host "TestPkgPipeline"
             (test_props None None None) shared_object_state);
      [by eexists | discriminate..].
Defined.

(** X11. Once a constructor has defaulted three command objects, a second
    constructor given the same three objects leaves them as they are,
    whatever its own global commands and coordinates: the defaults written
    by the first construction stay. *)
Theorem second_construction_keeps_first_defaults
    host id props host' id' props' st l r t :
  valid_props props (objects st) → coordinates_given props →
  lintCommands props = Some l → releaseCommands props = Some r →
  testCommands props = Some t →
  lintCommands props' = Some l → releaseCommands props' = Some r →
  testCommands props' = Some t →
  let st1 := (PkgPipeline host id props st).1 in
  let st2 := (PkgPipeline host' id' props' st1).1 in
  objects st2 = objects st1.
Proof.
  intros Hvalid Hc Hl Hr Ht Hl' Hr' Ht' st1 st2.
  assert (Hdefined :
    (defined (objects st1) l "install" ∧ defined (objects st1) l "pre_build" ∧
     defined (objects st1) l "build") ∧
    (defined (objects st1) t "install" ∧ defined (objects st1) t "pre_build" ∧
     defined (objects st1) t "build") ∧
    (defined (objects st1) r "install" ∧ defined (objects st1) r "pre_build" ∧
     defined (objects st1) r "build" ∧ defined (objects st1) r "post_build")).
  { subst st1.
    destruct (PkgPipeline_succeeds host id props st Hc)
      as (h & l0 & r0 & t0 & -> & Hrun).
    destruct (defaulting_defines_every_phase props
                {| objects := objects st; tree := tree st ++ [Node id] |} Hvalid)
      as (st' & l' & r' & t' & Hrun' & _ & HL & HT & HR).
    rewrite Hrun in Hrun'. injection Hrun' as <- <- <- <-.
    assert (Hd : destructured props (objects st) = (l, r, t, objects st))
      by (unfold destructured, or_new_store; by rewrite Hl, Hr, Ht).
    rewrite (default_commands_run props
               {| objects := objects st; tree := tree st ++ [Node id] |}
               l r t (objects st) Hd) in Hrun.
    injection Hrun as _ <- <- <-. done. }
  destruct Hdefined as ((L1 & L2 & L3) & (T1 & T2 & T3) & (R1 & R2 & R3 & R4)).
  subst st2.
  destruct (PkgPipeline_objects host' id' props' st1)
    as [->|(l2 & r2 & t2 & h3 & Hd & ->)]; [done|].
  unfold destructured, or_new_store in Hd. rewrite Hl', Hr', Ht' in Hd.
  injection Hd as <- <- <- <-.
  unfold assignments, fills.
  repeat match goal with
  | H : defined ?h ?c ?k |- context [fill ?c ?k ?v ?h] =>
      rewrite (fill_defined_id c k v h H)
  end.
  reflexivity.
Qed.

Lemma second_construction_keeps_first_defaults_witness :
  objects (PkgPipeline sample_host "Second" second_props
             (PkgPipeline sample_host "First"
                (test_props (Some 1%positive) (Some 2%positive) (Some 3%positive))
                three_objects_state).1).1
  = objects (PkgPipeline sample_host "First"
               (test_props (Some 1%positive) (Some 2%positive) (Some 3%positive))
               three_objects_state).1.
Proof.
  apply (second_construction_keeps_first_defaults sample_host "First"
           (test_props (Some 1%positive) (Some 2%positive) (Some 3%positive))
           sample_host "Second" second_props three_objects_state
           1%positive 3%positive 2%positive);
    try reflexivity.
  - intros c [H|[H|H]]; injection H as <-; vm_compute; by eexists.
  - sample_props.
Defined.

End PkgPipelineSpec.
